(** * IRWP STM32 firmware: pattern execution and safety interlock

    A shallow embedding of [Micro-Controlers/Firmware/stm32/stm32_firmware.cpp]
    and the properties of its command handler, phase sequencer and
    emergency path.

    Conventions of the embedding:
    - the global variables of the firmware are the fields of [Machine];
    - every write to a pin and every [Serial.print] is appended to the
      [trace] field, oldest first, and pin writes also update [pins];
    - [uint8_t] and [uint32_t] arithmetic is on [Z] with the wrap-around
      written out ([wrap8], [wrap32]);
    - [emergencyHandler] ends in [while(1)] and never returns: a call that
      enters it has outcome [Halted];
    - reading [phases[i]] outside the 20 slots of the array has outcome
      [Undefined]. *)

From Stdlib Require Import ZArith List String Ascii Bool Lia.
Import ListNotations.

#[local] Open Scope string_scope.
#[local] Open Scope list_scope.
#[local] Open Scope Z_scope.

(** ** Fixed-width integers *)

Definition wrap8 (z : Z) : Z := z mod 256.
Definition wrap32 (z : Z) : Z := z mod 4294967296.

(** ** The operations of the Arduino [String] class used by the firmware

    These follow the Arduino core's [WString.cpp]; strings are assumed
    free of NUL characters. *)

Module WString.

Definition len (s : string) : Z := Z.of_nat (String.length s).

(** The double quote character, code 34. *)
Definition dquote : string := String (ascii_of_nat 34) EmptyString.

(** [isspace] in the C locale. *)
Definition isspace (c : ascii) : bool :=
  let n := nat_of_ascii c in
  (Nat.eqb n 32) || ((Nat.leb 9 n) && (Nat.leb n 13)).

Definition is_empty (s : string) : bool :=
  match s with EmptyString => true | String _ _ => false end.

Fixpoint skip_space (s : string) : string :=
  match s with
  | EmptyString => EmptyString
  | String c r => if isspace c then skip_space r else s
  end.

Fixpoint trim_right (s : string) : string :=
  match s with
  | EmptyString => EmptyString
  | String c r =>
      let r' := trim_right r in
      if isspace c && is_empty r' then EmptyString else String c r'
  end.

(** [String::trim]: drops leading and trailing white space. *)
Definition trim (s : string) : string := trim_right (skip_space s).

(** [operator==] against a literal. *)
Definition equals (s lit : string) : bool := String.eqb s lit.

(** [String::startsWith]. *)
Definition startsWith (s pre : string) : bool := String.prefix pre s.

(** [String::indexOf(const String&)]: the first occurrence, or -1. *)
Definition indexOf (s pat : string) : Z :=
  if 0 <? len s then
    match String.index 0 pat s with
    | Some n => Z.of_nat n
    | None => -1
    end
  else -1.

(** [String::indexOf(char, unsigned fromIndex)]; the caller's [int]
    argument is converted to [unsigned int]. *)
Definition indexOfChar (s : string) (c : ascii) (from : Z) : Z :=
  let from := wrap32 from in
  if len s <=? from then -1
  else
    match String.index (Z.to_nat from) (String c EmptyString) s with
    | Some n => Z.of_nat n
    | None => -1
    end.

(** [String::substring(unsigned left, unsigned right)]: the bounds are
    swapped when out of order and [right] is clipped to the length. *)
Definition substring (s : string) (left right : Z) : string :=
  let l0 := wrap32 left in
  let r0 := wrap32 right in
  let l := if r0 <? l0 then r0 else l0 in
  let r := if r0 <? l0 then l0 else r0 in
  if len s <=? l then EmptyString
  else
    let r' := if len s <? r then len s else r in
    String.substring (Z.to_nat l) (Z.to_nat (r' - l)) s.

(** [String::substring(unsigned left)]. *)
Definition substringFrom (s : string) (left : Z) : string :=
  substring s left (len s).

Definition digit_of (c : ascii) : option Z :=
  let n := Z.of_nat (nat_of_ascii c) in
  if (48 <=? n) && (n <=? 57) then Some (n - 48) else None.

Fixpoint digits (acc : Z) (s : string) : Z :=
  match s with
  | EmptyString => acc
  | String c r =>
      match digit_of c with
      | Some d => digits (10 * acc + d) r
      | None => acc
      end
  end.

(** [String::toInt] is [atol]: optional white space, an optional sign,
    then decimal digits; 0 when no digit is found.  The result is a
    32-bit [long]; out-of-range values saturate as in [strtol]. *)
Definition toInt (s : string) : Z :=
  let s1 := skip_space s in
  match s1 with
  | String "-"%char r => Z.max (-2147483648) (- digits 0 r)
  | String "+"%char r => Z.min 2147483647 (digits 0 r)
  | _ => Z.min 2147483647 (digits 0 s1)
  end.

End WString.

(** ** Data model *)

(** [enum SystemState]; the numeric codes 0, 1, 2 and 99 only matter for
    the status report. *)
Inductive SystemState : Type :=
| STATE_IDLE
| STATE_ARMED
| STATE_CYCLING
| STATE_EMERGENCY.

Definition state_code (s : SystemState) : Z :=
  match s with
  | STATE_IDLE => 0
  | STATE_ARMED => 1
  | STATE_CYCLING => 2
  | STATE_EMERGENCY => 99
  end.

Definition state_eqb (a b : SystemState) : bool :=
  state_code a =? state_code b.

(** [struct AttackPhase]: [uint8_t ledGroup], [uint16_t durationMs],
    [uint8_t intensity]. *)
Record AttackPhase : Type := mkPhase {
  ledGroup : Z;
  durationMs : Z;
  intensity : Z
}.

(** [struct AttackPattern]; [phases] is the array of 20 slots. *)
Record AttackPattern : Type := mkPattern {
  name : string;
  phaseCount : Z;
  phases : list AttackPhase;
  repeatCount : Z
}.

Definition PHASE_SLOTS : nat := 20%nat.

Definition zeroPhase : AttackPhase := mkPhase 0 0 0.

(** Aggregate initialisation: the slots after the listed phases are
    zero-filled. *)
Definition array20 (l : list AttackPhase) : list AttackPhase :=
  l ++ repeat zeroPhase (PHASE_SLOTS - List.length l).

(** [PROVEN_PATTERNS].  The third entry carries one initialiser more than
    the struct has members in the source; it is dropped here. *)
Definition PROVEN_PATTERNS : list AttackPattern :=
  [ mkPattern "AGC_Lock_5_Second" 9
      (array20 [ mkPhase 4 50 255; mkPhase 4 50 0; mkPhase 4 50 255;
                 mkPhase 4 50 0; mkPhase 4 50 255; mkPhase 4 50 0;
                 mkPhase 4 50 255; mkPhase 4 50 0; mkPhase 4 5000 255 ]) 1;
    mkPattern "Sensor_Saturation_Blast" 1
      (array20 [ mkPhase 4 5000 255 ]) 1;
    mkPattern "Rolling_Shutter_Flicker" 1
      (array20 [ mkPhase 5 100 200 ]) 3 ].

Definition PATTERN_COUNT : Z := Z.of_nat (List.length PROVEN_PATTERNS).

(** The output pins the firmware writes. *)
Inductive Pin : Type :=
| HAT_PIN
| HOODIE_PIN
| PANTS_PIN
| SHOES_PIN
| RELAY_PIN
| STATUS_LED_PIN.

(** What a pin was last driven with: a level by [digitalWrite] or a PWM
    duty by [analogWrite]. *)
Inductive PinOut : Type :=
| Digital (high : bool)
| Pwm (duty : Z).

Record Outputs : Type := mkOutputs {
  hat : PinOut;
  hoodie : PinOut;
  pants : PinOut;
  shoes : PinOut;
  relay : PinOut;
  statusLed : PinOut
}.

Definition write_pin (p : Pin) (v : PinOut) (o : Outputs) : Outputs :=
  match p with
  | HAT_PIN => mkOutputs v (hoodie o) (pants o) (shoes o) (relay o) (statusLed o)
  | HOODIE_PIN => mkOutputs (hat o) v (pants o) (shoes o) (relay o) (statusLed o)
  | PANTS_PIN => mkOutputs (hat o) (hoodie o) v (shoes o) (relay o) (statusLed o)
  | SHOES_PIN => mkOutputs (hat o) (hoodie o) (pants o) v (relay o) (statusLed o)
  | RELAY_PIN => mkOutputs (hat o) (hoodie o) (pants o) (shoes o) v (statusLed o)
  | STATUS_LED_PIN => mkOutputs (hat o) (hoodie o) (pants o) (shoes o) (relay o) v
  end.

(** A channel is off when it was driven LOW or with duty 0. *)
Definition is_off (v : PinOut) : bool :=
  match v with
  | Digital high => negb high
  | Pwm duty => duty =? 0
  end.

Definition channels_off (o : Outputs) : bool :=
  is_off (hat o) && is_off (hoodie o) && is_off (pants o) && is_off (shoes o).

Definition is_channel (p : Pin) : bool :=
  match p with
  | HAT_PIN | HOODIE_PIN | PANTS_PIN | SHOES_PIN => true
  | RELAY_PIN | STATUS_LED_PIN => false
  end.

(** What is sent with [Serial.print]: text or a number in decimal. *)
Inductive SerialItem : Type :=
| Txt (s : string)
| Num (n : Z).

(** The observable effects. *)
Inductive Event : Type :=
| EvDigitalWrite (p : Pin) (high : bool)
| EvAnalogWrite (p : Pin) (duty : Z)
| EvPrint (x : SerialItem)
| EvPrintln (x : SerialItem).

(** The global variables, the pin outputs and the effects so far. *)
Record Machine : Type := mkMachine {
  currentState : SystemState;
  safetyEngaged : bool;
  emergencyTriggered : bool;
  currentPattern : AttackPattern;
  currentPhaseIndex : Z;
  cycleStartTime : Z;
  globalCycleCount : Z;
  pins : Outputs;
  trace : list Event
}.

Definition set_currentState (v : SystemState) (m : Machine) : Machine :=
  mkMachine v (safetyEngaged m) (emergencyTriggered m) (currentPattern m)
    (currentPhaseIndex m) (cycleStartTime m) (globalCycleCount m) (pins m)
    (trace m).

Definition set_safetyEngaged (v : bool) (m : Machine) : Machine :=
  mkMachine (currentState m) v (emergencyTriggered m) (currentPattern m)
    (currentPhaseIndex m) (cycleStartTime m) (globalCycleCount m) (pins m)
    (trace m).

Definition set_emergencyTriggered (v : bool) (m : Machine) : Machine :=
  mkMachine (currentState m) (safetyEngaged m) v (currentPattern m)
    (currentPhaseIndex m) (cycleStartTime m) (globalCycleCount m) (pins m)
    (trace m).

Definition set_currentPattern (v : AttackPattern) (m : Machine) : Machine :=
  mkMachine (currentState m) (safetyEngaged m) (emergencyTriggered m) v
    (currentPhaseIndex m) (cycleStartTime m) (globalCycleCount m) (pins m)
    (trace m).

Definition set_currentPhaseIndex (v : Z) (m : Machine) : Machine :=
  mkMachine (currentState m) (safetyEngaged m) (emergencyTriggered m)
    (currentPattern m) v (cycleStartTime m) (globalCycleCount m) (pins m)
    (trace m).

Definition set_cycleStartTime (v : Z) (m : Machine) : Machine :=
  mkMachine (currentState m) (safetyEngaged m) (emergencyTriggered m)
    (currentPattern m) (currentPhaseIndex m) v (globalCycleCount m) (pins m)
    (trace m).

Definition set_globalCycleCount (v : Z) (m : Machine) : Machine :=
  mkMachine (currentState m) (safetyEngaged m) (emergencyTriggered m)
    (currentPattern m) (currentPhaseIndex m) (cycleStartTime m) v (pins m)
    (trace m).

(** One hardware or serial effect: logged, and applied to [pins] when it
    is a pin write. *)
Definition apply_event (e : Event) (o : Outputs) : Outputs :=
  match e with
  | EvDigitalWrite p high => write_pin p (Digital high) o
  | EvAnalogWrite p duty => write_pin p (Pwm duty) o
  | EvPrint _ | EvPrintln _ => o
  end.

Definition emit (e : Event) (m : Machine) : Machine :=
  mkMachine (currentState m) (safetyEngaged m) (emergencyTriggered m)
    (currentPattern m) (currentPhaseIndex m) (cycleStartTime m)
    (globalCycleCount m) (apply_event e (pins m)) (trace m ++ [e]).

Definition digitalWrite (p : Pin) (high : bool) : Machine -> Machine :=
  emit (EvDigitalWrite p high).

Definition analogWrite (p : Pin) (duty : Z) : Machine -> Machine :=
  emit (EvAnalogWrite p duty).

Definition print (s : string) : Machine -> Machine := emit (EvPrint (Txt s)).
Definition println (s : string) : Machine -> Machine := emit (EvPrintln (Txt s)).
Definition printNum (n : Z) : Machine -> Machine := emit (EvPrint (Num n)).
Definition printlnNum (n : Z) : Machine -> Machine := emit (EvPrintln (Num n)).

(** Statements in sequence. *)
Definition andThen (f g : Machine -> Machine) : Machine -> Machine :=
  fun m => g (f m).

Declare Scope fw_scope.
Delimit Scope fw_scope with fw.
Notation "f ;; g" := (andThen f g)
  (at level 61, left associativity) : fw_scope.
#[local] Open Scope fw_scope.

(** How a call ends. *)
Inductive Outcome : Type :=
| Returned (m : Machine)
| Halted (m : Machine)
| Undefined.

Definition bind (o : Outcome) (k : Machine -> Outcome) : Outcome :=
  match o with
  | Returned m => k m
  | Halted m => Halted m
  | Undefined => Undefined
  end.

(** ** The firmware *)

Module Firmware.

Import WString.

Definition skip : Machine -> Machine := fun m => m.

(** [flickerAll]: 50 rounds of four [digitalWrite]s; [digitalWrite]
    drives the pin HIGH for every non-zero value. *)
Definition flickerRound (intensity i : Z) : Machine -> Machine :=
  digitalWrite HAT_PIN (negb ((i mod 2) * intensity =? 0)) ;;
  digitalWrite HOODIE_PIN (negb (((i + 1) mod 2) * intensity =? 0)) ;;
  digitalWrite PANTS_PIN (negb (((i + 2) mod 2) * intensity =? 0)) ;;
  digitalWrite SHOES_PIN (negb (((i + 3) mod 2) * intensity =? 0)).

Fixpoint flickerFrom (rounds : nat) (i intensity : Z) (m : Machine) : Machine :=
  match rounds with
  | O => m
  | S k => flickerFrom k (i + 1) intensity (flickerRound intensity i m)
  end.

Definition flickerAll (intensity : Z) : Machine -> Machine :=
  flickerFrom 50 0 intensity.

(** [setLEDGroup(uint8_t group, uint8_t intensity)]. *)
Definition setLEDGroup (group intensity : Z) : Machine -> Machine :=
  digitalWrite RELAY_PIN true ;;
  match group with
  | 0 => analogWrite HAT_PIN intensity
  | 1 => analogWrite HOODIE_PIN intensity
  | 2 => analogWrite PANTS_PIN intensity
  | 3 => analogWrite SHOES_PIN intensity
  | 4 =>
      analogWrite HAT_PIN intensity ;;
      analogWrite HOODIE_PIN intensity ;;
      analogWrite PANTS_PIN intensity ;;
      analogWrite SHOES_PIN intensity
  | 5 => flickerAll intensity
  | _ => skip
  end.

Definition allLEDsOff : Machine -> Machine :=
  digitalWrite HAT_PIN false ;;
  digitalWrite HOODIE_PIN false ;;
  digitalWrite PANTS_PIN false ;;
  digitalWrite SHOES_PIN false ;;
  digitalWrite RELAY_PIN false.

(** [emergencyHandler]: the statements before the [while(1)]; the loop
    itself only toggles the status LED and is never left. *)
Definition emergencyHandler (m : Machine) : Outcome :=
  Halted
    ((set_emergencyTriggered true ;;
      set_currentState STATE_EMERGENCY ;;
      allLEDsOff ;;
      println "EMERGENCY_STOPPED" ;;
      digitalWrite STATUS_LED_PIN true) m).

Definition emergencyISR : Machine -> Machine :=
  set_emergencyTriggered true.

Definition sendStatusJson (m : Machine) : Machine :=
  (print ("{" ++ dquote ++ "state" ++ dquote ++ ":") ;;
   printNum (state_code (currentState m)) ;;
   print ("," ++ dquote ++ "safety" ++ dquote ++ ":") ;;
   printNum (if safetyEngaged m then 1 else 0) ;;
   print ("," ++ dquote ++ "armed" ++ dquote ++ ":") ;;
   printNum (if state_eqb (currentState m) STATE_IDLE then 0 else 1) ;;
   print ("," ++ dquote ++ "cycle" ++ dquote ++ ":") ;;
   printNum (globalCycleCount m) ;;
   print ("," ++ dquote ++ "platform" ++ dquote ++ ":" ++ dquote ++ "STM32"
          ++ dquote ++ "}" ++ String (ascii_of_nat 10) EmptyString)) m.

Definition key_group : string := dquote ++ "group" ++ dquote ++ ":".
Definition key_intensity : string := dquote ++ "intensity" ++ dquote ++ ":".

(** [processCommand]; [now] is what [millis()] returns when START_CYCLE
    reads it. *)
Definition processCommand (now : Z) (cmd : string) (m : Machine) : Outcome :=
  if equals cmd "ARM" then
    Returned ((set_currentState STATE_ARMED ;; println "ACK_ARMED") m)
  else if equals cmd "DISARM" then
    Returned
      ((set_currentState STATE_IDLE ;; allLEDsOff ;; println "ACK_DISARMED") m)
  else if equals cmd "START_CYCLE" then
    if state_eqb (currentState m) STATE_ARMED then
      Returned
        ((set_currentState STATE_CYCLING ;;
          set_currentPhaseIndex 0 ;;
          set_cycleStartTime now ;;
          println "CYCLE_STARTED") m)
    else Returned m
  else if equals cmd "STOP_CYCLE" then
    Returned ((set_currentState STATE_ARMED ;; println "CYCLE_STOPPED") m)
  else if startsWith cmd "LOAD_PATTERN:" then
    let idx := wrap8 (toInt (substringFrom cmd 13)) in
    if idx <? PATTERN_COUNT then
      match nth_error PROVEN_PATTERNS (Z.to_nat idx) with
      | Some p =>
          Returned
            ((set_currentPattern p ;;
              print "PATTERN_LOADED:" ;;
              println (name p)) m)
      | None => Undefined
      end
    else Returned m
  else if startsWith cmd "SET_GROUP:" then
    let group_start := indexOfChar cmd ":"%char 0 + 1 in
    let json_str := substringFrom cmd group_start in
    let g_idx := indexOf json_str key_group in
    let i_idx := indexOf json_str key_intensity in
    Returned
      (((if (0 <? g_idx) && (0 <? i_idx) then
           let group :=
             toInt (substring json_str (g_idx + 8)
                      (indexOfChar json_str ","%char g_idx)) in
           let intensity :=
             toInt (substring json_str (i_idx + 11)
                      (indexOfChar json_str "}"%char i_idx)) in
           setLEDGroup (wrap8 group) (wrap8 intensity)
         else skip) ;;
        println "GROUP_SET") m)
  else if equals cmd "EMERGENCY" then emergencyHandler m
  else if equals cmd "GET_STATUS" then Returned (sendStatusJson m)
  else if equals cmd "IDENTIFY" then Returned (println "IRWP_STM32_v2.5" m)
  else if equals cmd "ALL_OFF" then Returned (allLEDsOff m)
  else Returned m.

(** What one pass of [loop] reads from the outside: the safety pin, the
    pending serial line if any, and [millis()] at its two call sites. *)
Record Inputs : Type := mkInputs {
  safetyPinLow : bool;
  serialLine : option string;
  millisCmd : Z;
  millisTick : Z
}.

Definition processSerialCommand (inp : Inputs) (m : Machine) : Outcome :=
  match serialLine inp with
  | None => Returned m
  | Some line => processCommand (millisCmd inp) (trim line) m
  end.

(** The read of [currentPattern.phases[currentPhaseIndex]]. *)
Definition phaseAt (m : Machine) : option AttackPhase :=
  nth_error (phases (currentPattern m)) (Z.to_nat (currentPhaseIndex m)).

Definition executeCurrentPhase (m : Machine) : Outcome :=
  match phaseAt m with
  | Some phase => Returned (setLEDGroup (ledGroup phase) (intensity phase) m)
  | None => Undefined
  end.

Definition completeCycle (m : Machine) : Machine :=
  let m1 := set_currentPhaseIndex 0 m in
  let m2 := set_globalCycleCount (wrap32 (globalCycleCount m1 + 1)) m1 in
  (print "CYCLE_COMPLETE:" ;; printlnNum (globalCycleCount m2)) m2.

Definition advancePhase (now : Z) (m : Machine) : Machine :=
  let m1 := set_currentPhaseIndex (wrap8 (currentPhaseIndex m + 1)) m in
  let m2 :=
    if phaseCount (currentPattern m1) <=? currentPhaseIndex m1
    then completeCycle m1 else m1 in
  set_cycleStartTime now m2.

(** [processAutonomousCycle]; [now] is what [millis()] returns. *)
Definition processAutonomousCycle (now : Z) (m : Machine) : Outcome :=
  if negb (state_eqb (currentState m) STATE_CYCLING) then Returned m
  else
    match phaseAt m with
    | None => Undefined
    | Some phase =>
        if durationMs phase <=? wrap32 (now - cycleStartTime m) then
          bind (executeCurrentPhase m)
            (fun m1 => Returned (advancePhase now m1))
        else Returned m
    end.

(** One pass of [loop]. *)
Definition loop (inp : Inputs) (m : Machine) : Outcome :=
  let m0 := set_safetyEngaged (safetyPinLow inp) m in
  if emergencyTriggered m0 || negb (safetyEngaged m0) then
    if negb (state_eqb (currentState m0) STATE_IDLE)
    then emergencyHandler m0
    else Returned m0
  else
    bind (processSerialCommand inp m0)
      (processAutonomousCycle (millisTick inp)).

(** The globals as initialised before [setup], with all pins low. *)
Definition boot : Machine :=
  mkMachine STATE_IDLE false false
    (mkPattern EmptyString 0 (array20 []) 0) 0 0 0
    (mkOutputs (Digital false) (Digital false) (Digital false)
       (Digital false) (Digital false) (Digital false))
    [].

(** [setup]; [stored] is the pattern record that [EEPROM.get(128, ...)]
    reads.  Pin modes, the interrupt attachment, the motion sensor and
    the target record are not part of the model. *)
Definition setup (stored : AttackPattern) : Machine -> Machine :=
  println (String (ascii_of_nat 10) "IRWP v2.5 STM32 Firmware") ;;
  digitalWrite RELAY_PIN false ;;
  set_currentPattern stored ;;
  digitalWrite STATUS_LED_PIN false ;;
  println "STM32 Firmware Initialized".

(** What happens to the device: a pass of the main loop, or the
    emergency interrupt firing between two passes. *)
Inductive SysEvent : Type :=
| Iteration (inp : Inputs)
| Interrupt.

Definition sys_step (o : Outcome) (e : SysEvent) : Outcome :=
  match o, e with
  | Returned m, Iteration inp => loop inp m
  | Returned m, Interrupt => Returned (emergencyISR m)
  | Halted m, Iteration _ => Halted m
  | Halted m, Interrupt => Halted (emergencyISR m)
  | Undefined, _ => Undefined
  end.

Definition run (evs : list SysEvent) (o : Outcome) : Outcome :=
  fold_left sys_step evs o.

End Firmware.

(** ** Vocabulary of the properties *)

Module Props.

Import WString Firmware.

(** The effects a call added to the trace. *)
Definition new_events (before after : Machine) : list Event :=
  skipn (List.length (trace before)) (trace after).

(** Performing a list of effects in order. *)
Definition emits (evs : list Event) (m : Machine) : Machine :=
  fold_left (fun acc e => emit e acc) evs m.

Fixpoint flicker_events (rounds : nat) (i intensity : Z) : list Event :=
  match rounds with
  | O => []
  | S k =>
      [ EvDigitalWrite HAT_PIN (negb ((i mod 2) * intensity =? 0));
        EvDigitalWrite HOODIE_PIN (negb (((i + 1) mod 2) * intensity =? 0));
        EvDigitalWrite PANTS_PIN (negb (((i + 2) mod 2) * intensity =? 0));
        EvDigitalWrite SHOES_PIN (negb (((i + 3) mod 2) * intensity =? 0)) ]
      ++ flicker_events k (i + 1) intensity
  end.

(** The pin writes that follow the relay write in one [setLEDGroup]. *)
Definition channel_events (group intensity : Z) : list Event :=
  match group with
  | 0 => [EvAnalogWrite HAT_PIN intensity]
  | 1 => [EvAnalogWrite HOODIE_PIN intensity]
  | 2 => [EvAnalogWrite PANTS_PIN intensity]
  | 3 => [EvAnalogWrite SHOES_PIN intensity]
  | 4 => [ EvAnalogWrite HAT_PIN intensity; EvAnalogWrite HOODIE_PIN intensity;
           EvAnalogWrite PANTS_PIN intensity; EvAnalogWrite SHOES_PIN intensity ]
  | 5 => flicker_events 50 0 intensity
  | _ => []
  end.

(** One application of a (group, intensity) pair to the output driver. *)
Definition driver_events (group intensity : Z) : list Event :=
  EvDigitalWrite RELAY_PIN true :: channel_events group intensity.

Definition all_off_events : list Event :=
  [ EvDigitalWrite HAT_PIN false; EvDigitalWrite HOODIE_PIN false;
    EvDigitalWrite PANTS_PIN false; EvDigitalWrite SHOES_PIN false;
    EvDigitalWrite RELAY_PIN false ].

Definition emergency_events : list Event :=
  all_off_events
  ++ [EvPrintln (Txt "EMERGENCY_STOPPED"); EvDigitalWrite STATUS_LED_PIN true].

Definition status_events (m : Machine) : list Event :=
  [ EvPrint (Txt ("{" ++ dquote ++ "state" ++ dquote ++ ":"));
    EvPrint (Num (state_code (currentState m)));
    EvPrint (Txt ("," ++ dquote ++ "safety" ++ dquote ++ ":"));
    EvPrint (Num (if safetyEngaged m then 1 else 0));
    EvPrint (Txt ("," ++ dquote ++ "armed" ++ dquote ++ ":"));
    EvPrint (Num (if state_eqb (currentState m) STATE_IDLE then 0 else 1));
    EvPrint (Txt ("," ++ dquote ++ "cycle" ++ dquote ++ ":"));
    EvPrint (Num (globalCycleCount m));
    EvPrint (Txt ("," ++ dquote ++ "platform" ++ dquote ++ ":" ++ dquote
                  ++ "STM32" ++ dquote ++ "}"
                  ++ String (ascii_of_nat 10) EmptyString)) ].

Definition apply_events (evs : list Event) (o : Outputs) : Outputs :=
  fold_left (fun acc e => apply_event e acc) evs o.

(** The catalog index a LOAD_PATTERN line selects after the narrowing
    to [uint8_t]. *)
Definition load_index (cmd : string) : Z :=
  wrap8 (toInt (substringFrom cmd 13)).

(** A line that no branch of [processCommand] recognises. *)
Definition unrecognized (cmd : string) : Prop :=
  equals cmd "ARM" = false /\ equals cmd "DISARM" = false
  /\ equals cmd "START_CYCLE" = false /\ equals cmd "STOP_CYCLE" = false
  /\ startsWith cmd "LOAD_PATTERN:" = false
  /\ startsWith cmd "SET_GROUP:" = false
  /\ equals cmd "EMERGENCY" = false /\ equals cmd "GET_STATUS" = false
  /\ equals cmd "IDENTIFY" = false /\ equals cmd "ALL_OFF" = false.

(** What the sequencer prints when a cycle completes. *)
Definition cycle_complete (n : Z) : list Event :=
  [EvPrint (Txt "CYCLE_COMPLETE:"); EvPrintln (Num n)].

(** What [setup] writes and prints, whatever the stored pattern. *)
Definition setup_events : list Event :=
  [ EvPrintln (Txt (String (ascii_of_nat 10) "IRWP v2.5 STM32 Firmware"));
    EvDigitalWrite RELAY_PIN false;
    EvDigitalWrite STATUS_LED_PIN false;
    EvPrintln (Txt "STM32 Firmware Initialized") ].

Definition is_channel_write (e : Event) : bool :=
  match e with
  | EvDigitalWrite p _ | EvAnalogWrite p _ => is_channel p
  | EvPrint _ | EvPrintln _ => false
  end.

Definition relay_low : Event := EvDigitalWrite RELAY_PIN false.

(** The run state of the sequencer. *)
Definition cursor (m : Machine) : Z * Z * Z :=
  (currentPhaseIndex m, cycleStartTime m, globalCycleCount m).

Definition channels (o : Outputs) : PinOut * PinOut * PinOut * PinOut :=
  (hat o, hoodie o, pants o, shoes o).

(** A pattern record that fits the struct: 20 slots, and a phase count
    that stays inside them. *)
Definition fits_array (p : AttackPattern) : Prop :=
  List.length (phases p) = PHASE_SLOTS /\ 0 <= phaseCount p <= 20.

(** A pattern whose first [phaseCount] phases exist and last at least
    one millisecond. *)
Definition schedulable (p : AttackPattern) : bool :=
  (1 <=? phaseCount p)
  && forallb (fun ph => 1 <=? durationMs ph)
       (firstn (Z.to_nat (phaseCount p)) (phases p)).

(** The slots after the first [phaseCount] hold duration 0. *)
Definition zero_padded (p : AttackPattern) : bool :=
  forallb (fun ph => durationMs ph =? 0)
    (skipn (Z.to_nat (phaseCount p)) (phases p)).

(** Ticks at the given times, one after the other. *)
Fixpoint tick_run (times : list Z) (m : Machine) : Outcome :=
  match times with
  | [] => Returned m
  | now :: rest => bind (processAutonomousCycle now m) (tick_run rest)
  end.

(** What [n] phase boundaries in a row add to the trace, starting at
    phase [i] of pattern [p] with [c] cycles completed: each phase in
    turn, and the cycle report, with the count one higher in 32 bits,
    after the last one. *)
Fixpoint boundary_events (p : AttackPattern) (n : nat) (i c : Z) : list Event :=
  match n with
  | O => []
  | S k =>
      match nth_error (phases p) (Z.to_nat i) with
      | Some ph =>
          driver_events (ledGroup ph) (intensity ph)
          ++ (if i + 1 =? phaseCount p
              then cycle_complete (wrap32 (c + 1))
                   ++ boundary_events p k 0 (wrap32 (c + 1))
              else boundary_events p k (i + 1) c)
      | None => []
      end
  end.

(** The machines the device can be in, at the grain of the calls made by
    [setup] and [loop] and of the interrupt. *)
Inductive reachable (stored : AttackPattern) : Machine -> Prop :=
| reach_setup : reachable stored (setup stored boot)
| reach_interrupt m : reachable stored m -> reachable stored (emergencyISR m)
| reach_sample m b :
    reachable stored m -> reachable stored (set_safetyEngaged b m)
| reach_command m now cmd m' :
    reachable stored m ->
    processCommand now cmd m = Returned m' ->
    reachable stored m'
| reach_tick m now m' :
    reachable stored m ->
    processAutonomousCycle now m = Returned m' ->
    reachable stored m'.

(** An outcome that did not run into an out-of-bounds read and, if the
    loop is still running, sits in a reachable machine. *)
Definition sound (stored : AttackPattern) (o : Outcome) : Prop :=
  match o with
  | Returned m => reachable stored m
  | Halted _ => True
  | Undefined => False
  end.

(** Where a run that started with the latch set can be. *)
Definition latched_from (m : Machine) (o : Outcome) : Prop :=
  match o with
  | Returned m' =>
      emergencyTriggered m' = true
      /\ currentState m' = currentState m
      /\ pins m' = pins m
      /\ trace m' = trace m
      /\ cursor m' = cursor m
      /\ currentPattern m' = currentPattern m
  | Halted m' =>
      emergencyTriggered m' = true
      /\ currentState m' = STATE_EMERGENCY
      /\ channels_off (pins m') = true
      /\ relay (pins m') = Digital false
  | Undefined => False
  end.

(** The invariant behind the bounds of the phase read: the index is
    inside the array, and it either is below the phase count or points
    at a zero-filled slot, whose duration 0 makes the next tick fire. *)
Definition index_inv (m : Machine) : Prop :=
  0 <= currentPhaseIndex m < 20
  /\ fits_array (currentPattern m)
  /\ (currentPhaseIndex m < Z.max (phaseCount (currentPattern m)) 1
      \/ exists ph, phaseAt m = Some ph /\ durationMs ph = 0).

End Props.

(** ** The transition table of the state machine *)

Module Table.

(** The commands that are valid without raising an emergency. *)
Inductive Command : Type :=
| ARM
| DISARM
| START_CYCLE
| STOP_CYCLE
| LOAD_PATTERN (payload : string)
| SET_GROUP (payload : string)
| GET_STATUS
| IDENTIFY
| ALL_OFF.

(** The line that carries a command. *)
Definition wire (c : Command) : string :=
  match c with
  | ARM => "ARM"
  | DISARM => "DISARM"
  | START_CYCLE => "START_CYCLE"
  | STOP_CYCLE => "STOP_CYCLE"
  | LOAD_PATTERN payload => "LOAD_PATTERN:" ++ payload
  | SET_GROUP payload => "SET_GROUP:" ++ payload
  | GET_STATUS => "GET_STATUS"
  | IDENTIFY => "IDENTIFY"
  | ALL_OFF => "ALL_OFF"
  end.

(** The table as the specification words it: each row fires from its
    own state only (the interlock is engaged and a pattern is loaded),
    everything else leaves the state alone. *)
Definition spec_step (s : SystemState) (c : Command) : SystemState :=
  match s, c with
  | STATE_IDLE, ARM => STATE_ARMED
  | STATE_ARMED, DISARM => STATE_IDLE
  | STATE_ARMED, START_CYCLE => STATE_CYCLING
  | STATE_CYCLING, STOP_CYCLE => STATE_ARMED
  | _, _ => s
  end.

(** The table [processCommand] implements: only START_CYCLE looks at
    the state it starts from. *)
Definition firmware_step (s : SystemState) (c : Command) : SystemState :=
  match c with
  | ARM => STATE_ARMED
  | DISARM => STATE_IDLE
  | STOP_CYCLE => STATE_ARMED
  | START_CYCLE =>
      match s with
      | STATE_ARMED => STATE_CYCLING
      | _ => s
      end
  | _ => s
  end.

Definition predict (step : SystemState -> Command -> SystemState)
    (cmds : list Command) : SystemState :=
  fold_left step cmds STATE_IDLE.

(** One pass of the loop with the interlock engaged and the command
    pending; [t] holds what [millis()] returns at its two call sites. *)
Definition pass (x : Command * (Z * Z)) : Firmware.SysEvent :=
  Firmware.Iteration
    (Firmware.mkInputs true (Some (wire (fst x))) (fst (snd x)) (snd (snd x))).

Definition replay (stored : AttackPattern) (script : list (Command * (Z * Z)))
  : Outcome :=
  Firmware.run (map pass script)
    (Returned (Firmware.setup stored Firmware.boot)).

End Table.

(** ** Concrete machines and runs *)

Module Scenarios.

Import Firmware.

(** A stored pattern of two phases of 50 ms each. *)
Definition two_phase : AttackPattern :=
  mkPattern "Two_Phase" 2 (array20 [mkPhase 0 50 255; mkPhase 1 50 128]) 1.

(** A pass of the loop at time [t] with the interlock closed. *)
Definition engaged (line : option string) (t : Z) : SysEvent :=
  Iteration (mkInputs true line t t).

(** Passes without a command at 10, 20, ..., 220 ms. *)
Definition ticks_10ms : list SysEvent :=
  map (fun k => engaged None (10 * Z.of_nat k)) (seq 1 22).

(** ARM and START_CYCLE at time 0 on the two-phase pattern, then the
    ticks. *)
Definition two_phase_run : Outcome :=
  run ([engaged (Some "ARM") 0; engaged (Some "START_CYCLE") 0] ++ ticks_10ms)
    (Returned (setup two_phase boot)).

Definition completed (o : Outcome) : option Z :=
  match o with
  | Returned m => Some (globalCycleCount m)
  | Halted _ | Undefined => None
  end.

Definition effects_since (m : Machine) (o : Outcome) : option (list Event) :=
  match o with
  | Returned m' => Some (Props.new_events m m')
  | Halted _ | Undefined => None
  end.

Definition machine_of (o : Outcome) : Machine :=
  match o with
  | Returned m | Halted m => m
  | Undefined => boot
  end.

(** The machine right after [setup] on the two-phase pattern, with the
    emergency interrupt already taken: Idle with the latch set. *)
Definition idle_latched : Machine :=
  emergencyISR (setup two_phase boot).

(** One pass with the interlock closed and ARM pending. *)
Definition arm_pass : Inputs := mkInputs true (Some "ARM") 0 0.

(** ARM, START_CYCLE at 0 ms, and the first phase applied at 50 ms:
    Cycling with the first channel lit. *)
Definition cycling_lit : Machine :=
  machine_of
    (run [ engaged (Some "ARM") 0; engaged (Some "START_CYCLE") 0;
           engaged None 50 ]
       (Returned (setup two_phase boot))).

(** LOAD_PATTERN:1 accepted at 60 ms while the two-phase pattern is at
    its second phase: Cycling on the one-phase pattern with the index
    left at 1. *)
Definition stale_index : Machine :=
  machine_of (processCommand 60 "LOAD_PATTERN:1" cycling_lit).

(** One pass with the interlock open and nothing pending. *)
Definition open_pass : Inputs := mkInputs false None 60 60.

(** A stored pattern whose only phase lasts 0 ms. *)
Definition zero_duration : AttackPattern :=
  mkPattern "Zero" 1 (array20 [mkPhase 4 0 255]) 1.

(** ARM and START_CYCLE at 0 ms on the zero-duration pattern. *)
Definition zero_duration_run : Outcome :=
  run [engaged (Some "ARM") 0; engaged (Some "START_CYCLE") 0]
    (Returned (setup zero_duration boot)).

(** The machine after the run of the two-phase pattern: two cycles
    completed. *)
Definition after_two_cycles : Machine := machine_of two_phase_run.

Definition agc_lock : AttackPattern := nth 0 PROVEN_PATTERNS two_phase.
Definition saturation_blast : AttackPattern := nth 1 PROVEN_PATTERNS two_phase.

(** A stored record that claims 21 phases of 1 ms in the 20 slots. *)
Definition oversized : AttackPattern :=
  mkPattern "Oversized" 21 (repeat (mkPhase 0 1 0) 20) 1.

(** ARM and START_CYCLE at 0 ms on the oversized record, then a tick
    every millisecond up to 21 ms. *)
Definition oversized_run : Outcome :=
  run ([engaged (Some "ARM") 0; engaged (Some "START_CYCLE") 0]
       ++ map (fun k => engaged None (Z.of_nat k)) (seq 1 21))
    (Returned (setup oversized boot)).

(** A SET_GROUP line as the protocol documents it: group 4 at 255. *)
Definition set_group_all_full : string :=
  "SET_GROUP:{" ++ Firmware.key_group ++ "4," ++ Firmware.key_intensity
  ++ "255}".

(** A SET_GROUP line with both keys and no values. *)
Definition garbled_set_group : string :=
  "SET_GROUP:x" ++ Firmware.key_group ++ "," ++ Firmware.key_intensity ++ "}".

End Scenarios.

(** ** The claims that the firmware does not meet, as they are worded *)

Module Worded.

Import Firmware.

(** "Once the latched flag is set, the very next loop iteration
    establishes Emergency and all channels at 0, from every state." *)
Definition latch_forces_emergency (inp : Inputs) (m : Machine) : Prop :=
  emergencyTriggered m = true ->
  exists m',
    (loop inp m = Halted m' \/ loop inp m = Returned m')
    /\ currentState m' = STATE_EMERGENCY
    /\ channels_off (pins m') = true.

(** "An open interlock while Cycling freezes the sequencer, changes no
    channel and does not by itself force Emergency." *)
Definition interlock_only_freezes (inp : Inputs) (m : Machine) : Prop :=
  currentState m = STATE_CYCLING ->
  emergencyTriggered m = false ->
  safetyPinLow inp = false ->
  exists m',
    (loop inp m = Halted m' \/ loop inp m = Returned m')
    /\ Props.cursor m' = Props.cursor m
    /\ Props.channels (pins m') = Props.channels (pins m)
    /\ currentState m' <> STATE_EMERGENCY.

(** "After replaying valid commands the state is the one the table of
    section 4.2 predicts." *)
Definition replay_follows_spec_table (stored : AttackPattern)
    (script : list (Table.Command * (Z * Z))) : Prop :=
  exists m',
    Table.replay stored script = Returned m'
    /\ currentState m' = Table.predict Table.spec_step (map fst script).

(** "STOP_CYCLE forces all outputs off." *)
Definition stop_forces_outputs_off (now : Z) (m : Machine) : Prop :=
  exists m',
    processCommand now "STOP_CYCLE" m = Returned m'
    /\ channels_off (pins m') = true.

(** "While Cycling on a pattern of positive durations, a tick that fires
    applies one of the pattern's phases, moves on to the next one in
    order, and wraps to the first, counting one cycle, exactly after the
    last." *)
Definition tick_follows_pattern (now : Z) (m : Machine) : Prop :=
  currentState m = STATE_CYCLING ->
  Props.schedulable (currentPattern m) = true ->
  forall ph,
    phaseAt m = Some ph ->
    durationMs ph <= wrap32 (now - cycleStartTime m) ->
    exists m' k phk,
      processAutonomousCycle now m = Returned m'
      /\ 0 <= k < phaseCount (currentPattern m)
      /\ nth_error (phases (currentPattern m)) (Z.to_nat k) = Some phk
      /\ Props.new_events m m'
         = Props.driver_events (ledGroup phk) (intensity phk)
           ++ (if k + 1 =? phaseCount (currentPattern m)
               then Props.cycle_complete (globalCycleCount m + 1)
               else [])
      /\ currentPhaseIndex m'
         = (if k + 1 =? phaseCount (currentPattern m) then 0 else k + 1)
      /\ globalCycleCount m'
         = (if k + 1 =? phaseCount (currentPattern m)
            then globalCycleCount m + 1 else globalCycleCount m)
      /\ cycleStartTime m' = now.

(** "Loading a pattern with a zero-duration phase or no phase leaves
    the previously current pattern in place." *)
Definition bad_pattern_rejected (stored : AttackPattern) (m : Machine)
  : Prop :=
  Props.schedulable stored = false ->
  currentPattern (setup stored m) = currentPattern m.

(** "A successful load resets the phase index and the completed-cycle
    count to 0." *)
Definition load_resets_cursor (now : Z) (cmd : string) (m : Machine) : Prop :=
  WString.startsWith cmd "LOAD_PATTERN:" = true ->
  Props.load_index cmd < PATTERN_COUNT ->
  exists m',
    processCommand now cmd m = Returned m'
    /\ currentPhaseIndex m' = 0
    /\ globalCycleCount m' = 0.

(** "A LOAD_PATTERN line whose payload is not a catalog index changes
    nothing and is not acknowledged." *)
Definition malformed_load_ignored (now : Z) (cmd : string) (m : Machine)
  : Prop :=
  processCommand now cmd m = Returned m.

End Worded.

(** ** Vocabulary of the further properties *)

Module More.

Import WString Firmware.

(** The relay pin was last driven HIGH. *)
Definition relay_on (o : Outputs) : bool :=
  match relay o with
  | Digital true => true
  | Digital false | Pwm _ => false
  end.

(** No channel is driven while the relay is released. *)
Definition pin_safe (o : Outputs) : bool := relay_on o || channels_off o.

(** [pin_safe] holds after each single effect of [evs], performed in
    order from the outputs [o]. *)
Fixpoint safe_along (o : Outputs) (evs : list Event) : bool :=
  match evs with
  | [] => true
  | e :: rest =>
      pin_safe (apply_event e o) && safe_along (apply_event e o) rest
  end.

(** What holds of the device between two events of a run: while the loop
    is running the state is not Emergency and is Idle unless the last
    interlock sample was closed; once in the emergency handler the latch
    is set, the state is Emergency and the channels and relay are low. *)
Definition run_inv (o : Outcome) : Prop :=
  match o with
  | Returned m =>
      currentState m <> STATE_EMERGENCY
      /\ (currentState m <> STATE_IDLE -> safetyEngaged m = true)
  | Halted m =>
      currentState m = STATE_EMERGENCY
      /\ emergencyTriggered m = true
      /\ channels_off (pins m) = true
      /\ relay (pins m) = Digital false
  | Undefined => True
  end.

(** The pins are what the trace makes of the pins at boot, and
    [pin_safe] held after every effect of the trace. *)
Definition powered (m : Machine) : Prop :=
  pins m = Props.apply_events (trace m) (pins boot)
  /\ safe_along (pins boot) (trace m) = true.

Definition powered_inv (o : Outcome) : Prop :=
  match o with
  | Returned m | Halted m => powered m
  | Undefined => True
  end.

(** Effects that touch neither the relay nor a channel. *)
Definition is_quiet (e : Event) : bool :=
  match e with
  | EvPrint _ | EvPrintln _ => true
  | EvDigitalWrite p _ | EvAnalogWrite p _ =>
      match p with
      | STATUS_LED_PIN => true
      | _ => false
      end
  end.

(** A payload in which [atol] finds no number: empty, or starting with a
    character that is neither white space, nor a sign, nor a digit. *)
Definition no_number (payload : string) : bool :=
  match payload with
  | EmptyString => true
  | String c _ =>
      negb (isspace c)
      && negb (Ascii.eqb c "-"%char) && negb (Ascii.eqb c "+"%char)
      && match digit_of c with Some _ => false | None => true end
  end.

(** The level [digitalWrite] gives a pin for the value [v]. *)
Definition level (v : Z) : PinOut := Digital (negb (v =? 0)).

(** The outputs [setLEDGroup] leaves behind. *)
Definition after_group (group intensity : Z) (o : Outputs) : Outputs :=
  match group with
  | 0 => mkOutputs (Pwm intensity) (hoodie o) (pants o) (shoes o)
           (Digital true) (statusLed o)
  | 1 => mkOutputs (hat o) (Pwm intensity) (pants o) (shoes o)
           (Digital true) (statusLed o)
  | 2 => mkOutputs (hat o) (hoodie o) (Pwm intensity) (shoes o)
           (Digital true) (statusLed o)
  | 3 => mkOutputs (hat o) (hoodie o) (pants o) (Pwm intensity)
           (Digital true) (statusLed o)
  | 4 => mkOutputs (Pwm intensity) (Pwm intensity) (Pwm intensity)
           (Pwm intensity) (Digital true) (statusLed o)
  | 5 => mkOutputs (level intensity) (Digital false) (level intensity)
           (Digital false) (Digital true) (statusLed o)
  | _ => mkOutputs (hat o) (hoodie o) (pants o) (shoes o)
           (Digital true) (statusLed o)
  end.

(** A channel kept its output or was switched off. *)
Definition kept_or_off (before after : PinOut) : Prop :=
  after = before \/ is_off after = true.

(** The globals of the machine, leaving pins and trace aside. *)
Definition globals (m : Machine)
  : SystemState * bool * bool * AttackPattern * (Z * Z * Z) :=
  (currentState m, safetyEngaged m, emergencyTriggered m, currentPattern m,
   Props.cursor m).

(** Cycling on the two-phase pattern with the phase clock started 6 ms
    before [millis()] rolls over. *)
Definition near_rollover : Machine :=
  set_cycleStartTime 4294967290
    (set_currentState STATE_CYCLING (setup Scenarios.two_phase boot)).

(** Cycling on the record of an erased store: no phase, every slot 0. *)
Definition blank_cycling : Machine :=
  set_currentState STATE_CYCLING (setup (currentPattern boot) boot).

End More.

(** ** Effects: traces and frames *)

(** Closed facts about concrete machines and runs are settled by
    evaluation. *)
Ltac by_evaluation := vm_compute; reflexivity.

Section Effects.

Import WString Firmware Props.

Lemma Returned_inj (a b : Machine) : Returned a = Returned b -> a = b.
Proof. intros H. now inversion H. Qed.

Lemma Halted_inj (a b : Machine) : Halted a = Halted b -> a = b.
Proof. intros H. now inversion H. Qed.

Lemma emits_eq (evs : list Event) (m : Machine) :
  emits evs m =
  mkMachine (currentState m) (safetyEngaged m) (emergencyTriggered m)
    (currentPattern m) (currentPhaseIndex m) (cycleStartTime m)
    (globalCycleCount m) (apply_events evs (pins m)) (trace m ++ evs).
Proof.
  revert m.
  induction evs as [|e evs IH]; intros [st se et cp ix t0 gc ps tr].
  - cbn. now rewrite app_nil_r.
  - cbn [emits fold_left]. fold (emits evs). rewrite IH. cbn.
    now rewrite <- app_assoc.
Qed.

Lemma emits_app (xs ys : list Event) (m : Machine) :
  emits (xs ++ ys) m = emits ys (emits xs m).
Proof. unfold emits. now rewrite fold_left_app. Qed.

Lemma emits_trace (evs : list Event) (m : Machine) :
  trace (emits evs m) = trace m ++ evs.
Proof. now rewrite emits_eq. Qed.

Lemma new_events_app (m m' : Machine) (evs : list Event) :
  trace m' = trace m ++ evs -> new_events m m' = evs.
Proof.
  intros H. unfold new_events. rewrite H. clear H.
  induction (trace m) as [|x l IH]; [reflexivity | exact IH].
Qed.

Lemma new_events_emits (evs : list Event) (m : Machine) :
  new_events m (emits evs m) = evs.
Proof. apply new_events_app, emits_trace. Qed.

Lemma flickerFrom_emits (rounds : nat) :
  forall i intensity m,
    flickerFrom rounds i intensity m
    = emits (flicker_events rounds i intensity) m.
Proof.
  induction rounds as [|k IH]; intros i intensity m.
  - reflexivity.
  - cbn [flickerFrom flicker_events]. rewrite IH, emits_app. reflexivity.
Qed.

Lemma setLEDGroup_emits (group intensity : Z) (m : Machine) :
  setLEDGroup group intensity m = emits (driver_events group intensity) m.
Proof.
  unfold setLEDGroup, driver_events, andThen.
  change (emits (?e :: ?l) m) with (emits l (emit e m)).
  unfold digitalWrite.
  destruct group as [|p|p]; try reflexivity.
  do 3 (destruct p as [p|p|]; try reflexivity);
    apply (flickerFrom_emits 50 0 intensity).
Qed.


Lemma flicker_events_channels (rounds : nat) :
  forall i intensity,
    forallb is_channel_write (flicker_events rounds i intensity) = true.
Proof.
  induction rounds as [|k IH]; intros i intensity; [reflexivity|].
  cbn [flicker_events]. rewrite forallb_app, IH. reflexivity.
Qed.

Lemma channel_events_channels (group intensity : Z) :
  forallb is_channel_write (channel_events group intensity) = true.
Proof.
  destruct group as [|p|p]; try reflexivity.
  do 3 (destruct p as [p|p|]; try reflexivity);
    apply flicker_events_channels.
Qed.

(** Channel writes leave the relay and the status LED alone. *)
Lemma apply_channel_events (evs : list Event) :
  forallb is_channel_write evs = true ->
  forall o, relay (apply_events evs o) = relay o
            /\ statusLed (apply_events evs o) = statusLed o.
Proof.
  induction evs as [|e evs IH]; intros H o; [split; reflexivity|].
  cbn in H. apply andb_prop in H as [He Hevs].
  unfold apply_events in *. cbn [fold_left].
  destruct (IH Hevs (apply_event e o)) as [R1 R2]. rewrite R1, R2.
  destruct e as [p h|p d|x|x]; try discriminate;
    destruct p; try discriminate; split; reflexivity.
Qed.

End Effects.

(** ** Case analysis of the command handler and of the sequencer *)

Section Cases.

Import WString Firmware Props.

(** Every way [processCommand] can go, with what it does there. *)
Lemma processCommand_cases (now : Z) (cmd : string) (m : Machine)
    (P : Outcome -> Prop) :
  (cmd = "ARM" ->
   P (Returned (emits [EvPrintln (Txt "ACK_ARMED")]
                  (set_currentState STATE_ARMED m)))) ->
  (cmd = "DISARM" ->
   P (Returned (emits (all_off_events ++ [EvPrintln (Txt "ACK_DISARMED")])
                  (set_currentState STATE_IDLE m)))) ->
  (cmd = "START_CYCLE" -> currentState m = STATE_ARMED ->
   P (Returned (emits [EvPrintln (Txt "CYCLE_STARTED")]
                  (set_cycleStartTime now
                     (set_currentPhaseIndex 0
                        (set_currentState STATE_CYCLING m)))))) ->
  (cmd = "START_CYCLE" -> currentState m <> STATE_ARMED ->
   P (Returned m)) ->
  (cmd = "STOP_CYCLE" ->
   P (Returned (emits [EvPrintln (Txt "CYCLE_STOPPED")]
                  (set_currentState STATE_ARMED m)))) ->
  (forall p,
     startsWith cmd "LOAD_PATTERN:" = true ->
     load_index cmd < PATTERN_COUNT ->
     nth_error PROVEN_PATTERNS (Z.to_nat (load_index cmd)) = Some p ->
     P (Returned (emits [EvPrint (Txt "PATTERN_LOADED:");
                         EvPrintln (Txt (name p))]
                    (set_currentPattern p m)))) ->
  (startsWith cmd "LOAD_PATTERN:" = true ->
   PATTERN_COUNT <= load_index cmd ->
   P (Returned m)) ->
  (forall evs,
     startsWith cmd "SET_GROUP:" = true ->
     evs = [] \/ (exists g i, evs = driver_events g i) ->
     P (Returned (emits (evs ++ [EvPrintln (Txt "GROUP_SET")]) m))) ->
  (cmd = "EMERGENCY" ->
   P (Halted (emits emergency_events
                (set_currentState STATE_EMERGENCY
                   (set_emergencyTriggered true m))))) ->
  (cmd = "GET_STATUS" -> P (Returned (emits (status_events m) m))) ->
  (cmd = "IDENTIFY" ->
   P (Returned (emits [EvPrintln (Txt "IRWP_STM32_v2.5")] m))) ->
  (cmd = "ALL_OFF" -> P (Returned (emits all_off_events m))) ->
  (unrecognized cmd -> P (Returned m)) ->
  P (processCommand now cmd m).
Proof.
  intros Harm Hdis Hstart Hstart' Hstop Hload Hload' Hset Hem Hstat Hid
    Hoff Hother.
  unfold processCommand, equals.
  destruct (String.eqb cmd "ARM") eqn:E1.
  { apply String.eqb_eq in E1. exact (Harm E1). }
  destruct (String.eqb cmd "DISARM") eqn:E2.
  { apply String.eqb_eq in E2. exact (Hdis E2). }
  destruct (String.eqb cmd "START_CYCLE") eqn:E3.
  { apply String.eqb_eq in E3.
    destruct (state_eqb (currentState m) STATE_ARMED) eqn:Est.
    - apply (Hstart E3). now destruct (currentState m).
    - apply (Hstart' E3). intros Heq. now rewrite Heq in Est. }
  destruct (String.eqb cmd "STOP_CYCLE") eqn:E4.
  { apply String.eqb_eq in E4. exact (Hstop E4). }
  destruct (startsWith cmd "LOAD_PATTERN:") eqn:E5.
  { fold (load_index cmd).
    destruct (load_index cmd <? PATTERN_COUNT) eqn:Elt.
    - apply Z.ltb_lt in Elt.
      destruct (nth_error PROVEN_PATTERNS (Z.to_nat (load_index cmd)))
        as [p|] eqn:Enth.
      + exact (Hload p eq_refl Elt eq_refl).
      + exfalso. apply nth_error_None in Enth.
        unfold PATTERN_COUNT in Elt.
        assert (0 <= load_index cmd)
          by (unfold load_index, wrap8; apply Z.mod_pos_bound; lia).
        lia.
    - apply Z.ltb_ge in Elt. exact (Hload' eq_refl Elt). }
  destruct (startsWith cmd "SET_GROUP:") eqn:E6.
  { cbv zeta. unfold andThen.
    destruct ((0 <? _) && (0 <? _))%bool.
    - rewrite setLEDGroup_emits.
      change (println "GROUP_SET" ?x)
        with (emits [EvPrintln (Txt "GROUP_SET")] x).
      rewrite <- emits_app.
      match goal with
      | |- context [driver_events ?g ?i] =>
          apply (Hset (driver_events g i) eq_refl);
          right; exists g, i; reflexivity
      end.
    - apply (Hset [] eq_refl). left; reflexivity. }
  destruct (String.eqb cmd "EMERGENCY") eqn:E7.
  { apply String.eqb_eq in E7. exact (Hem E7). }
  destruct (String.eqb cmd "GET_STATUS") eqn:E8.
  { apply String.eqb_eq in E8. exact (Hstat E8). }
  destruct (String.eqb cmd "IDENTIFY") eqn:E9.
  { apply String.eqb_eq in E9. exact (Hid E9). }
  destruct (String.eqb cmd "ALL_OFF") eqn:E10.
  { apply String.eqb_eq in E10. exact (Hoff E10). }
  apply Hother. unfold unrecognized, equals. repeat split; assumption.
Qed.

End Cases.

Section SequencerCases.

Import WString Firmware Props.

Lemma advancePhase_eq (now : Z) (m : Machine) :
  advancePhase now m =
  if phaseCount (currentPattern m) <=? wrap8 (currentPhaseIndex m + 1) then
    emits [ EvPrint (Txt "CYCLE_COMPLETE:");
            EvPrintln (Num (wrap32 (globalCycleCount m + 1))) ]
      (set_cycleStartTime now
         (set_globalCycleCount (wrap32 (globalCycleCount m + 1))
            (set_currentPhaseIndex 0 m)))
  else
    set_cycleStartTime now
      (set_currentPhaseIndex (wrap8 (currentPhaseIndex m + 1)) m).
Proof.
  unfold advancePhase. cbn.
  destruct (phaseCount (currentPattern m) <=? wrap8 (currentPhaseIndex m + 1));
    reflexivity.
Qed.

(** Every way [processAutonomousCycle] can go. *)
Lemma processAutonomousCycle_cases (now : Z) (m : Machine)
    (P : Outcome -> Prop) :
  (currentState m <> STATE_CYCLING -> P (Returned m)) ->
  (currentState m = STATE_CYCLING -> phaseAt m = None -> P Undefined) ->
  (forall ph,
     currentState m = STATE_CYCLING -> phaseAt m = Some ph ->
     wrap32 (now - cycleStartTime m) < durationMs ph ->
     P (Returned m)) ->
  (forall ph,
     currentState m = STATE_CYCLING -> phaseAt m = Some ph ->
     durationMs ph <= wrap32 (now - cycleStartTime m) ->
     P (Returned
          (advancePhase now
             (emits (driver_events (ledGroup ph) (intensity ph)) m)))) ->
  P (processAutonomousCycle now m).
Proof.
  intros Hidle Hoob Hwait Hfire.
  unfold processAutonomousCycle, executeCurrentPhase.
  destruct (state_eqb (currentState m) STATE_CYCLING) eqn:Est; cbn [negb].
  2:{ apply Hidle. intros Heq. now rewrite Heq in Est. }
  assert (Hcyc : currentState m = STATE_CYCLING)
    by now destruct (currentState m).
  destruct (phaseAt m) as [ph|] eqn:Eph.
  2:{ now apply Hoob. }
  destruct (durationMs ph <=? wrap32 (now - cycleStartTime m)) eqn:Edur.
  - apply Z.leb_le in Edur. cbn [bind]. rewrite setLEDGroup_emits.
    now apply Hfire.
  - apply Z.leb_gt in Edur. now apply (Hwait ph).
Qed.

Lemma wrap32_nonneg (z : Z) : 0 <= wrap32 z.
Proof. unfold wrap32. apply Z.mod_pos_bound. lia. Qed.

(** An index below 20 hits a slot of the array. *)
Lemma slot_exists (m : Machine) :
  0 <= currentPhaseIndex m < 20 ->
  fits_array (currentPattern m) ->
  exists ph, phaseAt m = Some ph.
Proof.
  intros Hidx [Hlen _]. unfold phaseAt.
  destruct (nth_error (phases (currentPattern m))
              (Z.to_nat (currentPhaseIndex m))) as [ph|] eqn:E.
  - now exists ph.
  - apply nth_error_None in E. rewrite Hlen in E. unfold PHASE_SLOTS in E.
    lia.
Qed.

End SequencerCases.

(** ** The emergency interrupt and the power relay *)

Section Relay.

Import WString Firmware Props.

Lemma relay_low_not_channel (evs : list Event) :
  forallb is_channel_write evs = true -> ~ In relay_low evs.
Proof.
  intros Hall Hin. rewrite forallb_forall in Hall.
  specialize (Hall _ Hin). discriminate.
Qed.

Lemma relay_low_not_in_driver (g i : Z) : ~ In relay_low (driver_events g i).
Proof.
  intros [Heq | Hin]; [discriminate|].
  exact (relay_low_not_channel _ (channel_events_channels g i) Hin).
Qed.

(** What a command adds to the trace, as far as the relay goes. *)
Lemma processCommand_relay (now : Z) (cmd : string) (m : Machine) :
  match processCommand now cmd m with
  | Returned m' =>
      exists evs, trace m' = trace m ++ evs
                  /\ (In relay_low evs -> cmd = "DISARM" \/ cmd = "ALL_OFF")
  | Halted m' =>
      trace m' = trace m ++ emergency_events
      /\ currentState m' = STATE_EMERGENCY
  | Undefined => False
  end.
Proof.
  apply processCommand_cases; intros.
  all: try (eexists; split; [rewrite emits_trace; reflexivity|]).
  all: try (eexists; split; [symmetry; apply app_nil_r|]).
  all: try (cbn; intuition (discriminate || congruence)).
  - intros Hin. apply in_app_or in Hin as [Hin | [Heq | []]]; [|discriminate].
    destruct H0 as [-> | (g & i & ->)]; [destruct Hin|].
    now apply relay_low_not_in_driver in Hin.
  - split; [rewrite emits_trace|]; reflexivity.
Qed.

Lemma advancePhase_trace (now : Z) (m : Machine) :
  exists evs, trace (advancePhase now m) = trace m ++ evs
              /\ ~ In relay_low evs.
Proof.
  rewrite advancePhase_eq.
  destruct (phaseCount (currentPattern m) <=? wrap8 (currentPhaseIndex m + 1)).
  - eexists; split; [rewrite emits_trace; reflexivity|].
    cbn. intuition discriminate.
  - exists []. split; [symmetry; apply app_nil_r | intros []].
Qed.

Lemma processAutonomousCycle_relay (now : Z) (m : Machine) :
  match processAutonomousCycle now m with
  | Returned m' =>
      exists evs, trace m' = trace m ++ evs /\ ~ In relay_low evs
  | Halted _ => False
  | Undefined => True
  end.
Proof.
  apply processAutonomousCycle_cases; intros.
  1, 3: exists []; split; [symmetry; apply app_nil_r | intros []].
  - exact I.
  - destruct (advancePhase_trace now
                (emits (driver_events (ledGroup ph) (intensity ph)) m))
      as (evs & Htr & Hno).
    rewrite emits_trace in Htr.
    exists (driver_events (ledGroup ph) (intensity ph) ++ evs). split.
    + rewrite Htr. now rewrite app_assoc.
    + intros Hin. apply in_app_or in Hin as [Hin | Hin]; [|tauto].
      now apply relay_low_not_in_driver in Hin.
Qed.

End Relay.

(** C8: the emergency interrupt handler only sets the latched flag: it
    writes no pin, sends nothing over the serial line, and leaves the
    system state, the interlock sample, the current pattern and the
    sequencer's cursor as they were, whatever the machine it fires in. *)
Theorem emergencyISR_only_sets_latch :
  forall m : Machine,
    emergencyTriggered (Firmware.emergencyISR m) = true
    /\ Props.new_events m (Firmware.emergencyISR m) = []
    /\ trace (Firmware.emergencyISR m) = trace m
    /\ pins (Firmware.emergencyISR m) = pins m
    /\ currentState (Firmware.emergencyISR m) = currentState m
    /\ safetyEngaged (Firmware.emergencyISR m) = safetyEngaged m
    /\ currentPattern (Firmware.emergencyISR m) = currentPattern m
    /\ Props.cursor (Firmware.emergencyISR m) = Props.cursor m.
Proof.
  intros m. repeat split.
  apply new_events_app. symmetry. apply app_nil_r.
Qed.

Section LoopRelay.

Import WString Firmware Props.

Lemma emergencyHandler_eq (m : Machine) :
  emergencyHandler m =
  Halted (emits emergency_events
            (set_currentState STATE_EMERGENCY
               (set_emergencyTriggered true m))).
Proof. reflexivity. Qed.



End LoopRelay.



(** ** The phase sequencer *)

Section Sequencer.

Import WString Firmware Props.

(** A tick before the slot's time is up changes nothing. *)
Lemma tick_waits (m : Machine) (now : Z) (ph : AttackPhase) :
  currentState m = STATE_CYCLING ->
  phaseAt m = Some ph ->
  wrap32 (now - cycleStartTime m) < durationMs ph ->
  processAutonomousCycle now m = Returned m.
Proof.
  intros Hst Hph Hwait. unfold processAutonomousCycle.
  rewrite Hst, Hph. cbn [state_eqb state_code Z.eqb negb Pos.eqb].
  apply Z.leb_gt in Hwait. now rewrite Hwait.
Qed.

(** A tick at or after the slot's time, wherever the index is. *)
Lemma tick_fires (m : Machine) (now : Z) (ph : AttackPhase) :
  currentState m = STATE_CYCLING ->
  phaseAt m = Some ph ->
  durationMs ph <= wrap32 (now - cycleStartTime m) ->
  let wraps :=
    phaseCount (currentPattern m) <=? wrap8 (currentPhaseIndex m + 1) in
  exists m',
    processAutonomousCycle now m = Returned m'
    /\ trace m'
       = trace m
         ++ driver_events (ledGroup ph) (intensity ph)
         ++ (if wraps
             then cycle_complete (wrap32 (globalCycleCount m + 1))
             else [])
    /\ currentPhaseIndex m'
       = (if wraps then 0 else wrap8 (currentPhaseIndex m + 1))
    /\ globalCycleCount m'
       = (if wraps then wrap32 (globalCycleCount m + 1)
          else globalCycleCount m)
    /\ cycleStartTime m' = now
    /\ currentPattern m' = currentPattern m
    /\ currentState m' = STATE_CYCLING.
Proof.
  intros Hst Hph Hfire wraps.
  unfold processAutonomousCycle, executeCurrentPhase.
  rewrite Hst, Hph. cbn [state_eqb state_code Z.eqb negb Pos.eqb].
  apply Z.leb_le in Hfire. rewrite Hfire. cbn [bind].
  eexists. split; [reflexivity|].
  rewrite setLEDGroup_emits, advancePhase_eq, !emits_eq.
  cbn [currentPattern currentPhaseIndex globalCycleCount]. subst wraps.
  destruct (phaseCount (currentPattern m) <=? wrap8 (currentPhaseIndex m + 1)).
  - cbn. repeat split; try assumption. now rewrite <- app_assoc.
  - cbn. repeat split; try assumption. now rewrite app_nil_r.
Qed.

(** With the index on a phase of the pattern, the index wraps exactly
    after the last phase. *)
Lemma wraps_after_last (m : Machine) :
  0 <= currentPhaseIndex m < phaseCount (currentPattern m) ->
  phaseCount (currentPattern m) <= 255 ->
  wrap8 (currentPhaseIndex m + 1) = currentPhaseIndex m + 1
  /\ (phaseCount (currentPattern m) <=? wrap8 (currentPhaseIndex m + 1))
     = (currentPhaseIndex m + 1 =? phaseCount (currentPattern m)).
Proof.
  intros Hidx Hpc.
  assert (Hw : wrap8 (currentPhaseIndex m + 1) = currentPhaseIndex m + 1)
    by (apply Z.mod_small; lia).
  split; [exact Hw|]. rewrite Hw.
  destruct (currentPhaseIndex m + 1 =? phaseCount (currentPattern m)) eqn:E.
  - apply Z.eqb_eq in E. apply Z.leb_le. lia.
  - apply Z.eqb_neq in E. apply Z.leb_gt. lia.
Qed.

Lemma tick_fires_in_range (m : Machine) (now : Z) (ph : AttackPhase) :
  currentState m = STATE_CYCLING ->
  phaseAt m = Some ph ->
  0 <= currentPhaseIndex m < phaseCount (currentPattern m) ->
  phaseCount (currentPattern m) <= 255 ->
  durationMs ph <= wrap32 (now - cycleStartTime m) ->
  let last := currentPhaseIndex m + 1 =? phaseCount (currentPattern m) in
  exists m',
    processAutonomousCycle now m = Returned m'
    /\ trace m'
       = trace m
         ++ driver_events (ledGroup ph) (intensity ph)
         ++ (if last
             then cycle_complete (wrap32 (globalCycleCount m + 1))
             else [])
    /\ currentPhaseIndex m' = (if last then 0 else currentPhaseIndex m + 1)
    /\ globalCycleCount m'
       = (if last then wrap32 (globalCycleCount m + 1)
          else globalCycleCount m)
    /\ cycleStartTime m' = now
    /\ currentPattern m' = currentPattern m
    /\ currentState m' = STATE_CYCLING
    /\ 0 <= currentPhaseIndex m' < phaseCount (currentPattern m').
Proof.
  intros Hst Hph Hidx Hpc Hfire last.
  destruct (tick_fires m now ph Hst Hph Hfire)
    as (m' & Hrun & Htr & Hidx' & Hcnt & Hstart & Hpat & Hst').
  destruct (wraps_after_last m Hidx Hpc) as [Hw Hlast].
  rewrite Hlast in Htr, Hidx', Hcnt. rewrite Hw in Hidx'.
  fold last in Htr, Hidx', Hcnt.
  exists m'. split; [exact Hrun|]. split; [exact Htr|].
  split; [exact Hidx'|]. split; [exact Hcnt|]. split; [exact Hstart|].
  split; [exact Hpat|]. split; [exact Hst'|].
  rewrite Hidx', Hpat. subst last.
  destruct (currentPhaseIndex m + 1 =? phaseCount (currentPattern m)) eqn:E;
    [lia|]. apply Z.eqb_neq in E. lia.
Qed.

Lemma wrap32_add_l (a b : Z) : wrap32 (wrap32 a + b) = wrap32 (a + b).
Proof. unfold wrap32. apply Zplus_mod_idemp_l. Qed.

(** Over any sequence of ticks the phases are applied one by one in
    pattern order, wrapping to the first after the last, with one cycle
    report per wrap and nothing else in between. *)
Lemma tick_run_in_order (times : list Z) :
  forall m : Machine,
    currentState m = STATE_CYCLING ->
    fits_array (currentPattern m) ->
    0 <= currentPhaseIndex m < phaseCount (currentPattern m) ->
    exists (n : nat) (m' : Machine),
      (n <= List.length times)%nat
      /\ tick_run times m = Returned m'
      /\ trace m'
         = trace m
           ++ boundary_events (currentPattern m) n (currentPhaseIndex m)
                (globalCycleCount m)
      /\ currentPhaseIndex m'
         = (currentPhaseIndex m + Z.of_nat n) mod phaseCount (currentPattern m)
      /\ wrap32 (globalCycleCount m')
         = wrap32 (globalCycleCount m
                   + (currentPhaseIndex m + Z.of_nat n)
                     / phaseCount (currentPattern m))
      /\ currentPattern m' = currentPattern m.
Proof.
  induction times as [|now rest IH]; intros m Hst Hfit Hidx.
  - exists O, m. split; [reflexivity|]. split; [reflexivity|].
    cbn [boundary_events]. rewrite app_nil_r, Z.add_0_r.
    rewrite Z.mod_small, Z.div_small by lia.
    rewrite Z.add_0_r. repeat split.
  - assert (Hrange : 0 <= currentPhaseIndex m < 20)
      by (destruct Hfit as [_ Hpc]; lia).
    destruct (slot_exists m Hrange Hfit) as [ph Hph].
    cbn [tick_run].
    destruct (Z_lt_ge_dec (wrap32 (now - cycleStartTime m)) (durationMs ph))
      as [Hwait | Hfire].
    + rewrite (tick_waits m now ph Hst Hph Hwait). cbn [bind].
      destruct (IH m Hst Hfit Hidx) as (n & m' & Hn & Hrest).
      exists n, m'. split; [cbn [List.length]; lia | exact Hrest].
    + destruct (tick_fires_in_range m now ph Hst Hph Hidx) as
        (m1 & Hrun & Htr & Hidx1 & Hcnt1 & _ & Hpat1 & Hst1 & Hin1);
        [destruct Hfit; lia | lia |].
      rewrite Hrun. cbn [bind].
      destruct (IH m1) as (n & m' & Hn & Hrest & Htr' & Hidx' & Hcnt' & Hpat');
        try (rewrite Hpat1); try assumption.
      { now rewrite <- Hpat1. }
      exists (S n), m'. split; [cbn [List.length]; lia|].
      split; [exact Hrest|].
      rewrite Hpat1 in Htr', Hidx', Hcnt'.
      rewrite Htr', Htr, Hidx', Hcnt', Hidx1, Hcnt1, Hpat'.
      cbn [boundary_events]. unfold phaseAt in Hph. rewrite Hph.
      rewrite Nat2Z.inj_succ.
      destruct (currentPhaseIndex m + 1 =? phaseCount (currentPattern m))
        eqn:El.
      * apply Z.eqb_eq in El.
        replace (currentPhaseIndex m + Z.succ (Z.of_nat n))
          with (Z.of_nat n + 1 * phaseCount (currentPattern m)) by lia.
        rewrite Z.mod_add, Z.div_add by lia.
        rewrite Z.add_0_l, wrap32_add_l. rewrite <- !app_assoc.
        repeat split; try reflexivity; try assumption.
        f_equal. lia.
      * replace (currentPhaseIndex m + Z.succ (Z.of_nat n))
          with (currentPhaseIndex m + 1 + Z.of_nat n) by lia.
        rewrite app_nil_r, <- !app_assoc.
        repeat split; try reflexivity; assumption.
Qed.

End Sequencer.

(** ** The phase index stays inside the array *)

Section IndexInvariant.

Import WString Firmware Props.

Lemma catalog_fits (p : AttackPattern) :
  In p PROVEN_PATTERNS -> fits_array p /\ zero_padded p = true.
Proof.
  intros [<- | [<- | [<- | []]]]; (split; [split; [reflexivity | cbn; lia]
                                         | reflexivity]).
Qed.

Lemma zero_padded_slot (p : AttackPattern) (i : nat) (ph : AttackPhase) :
  zero_padded p = true ->
  (Z.to_nat (phaseCount p) <= i)%nat ->
  nth_error (phases p) i = Some ph ->
  durationMs ph = 0.
Proof.
  intros Hpad Hle Hnth. unfold zero_padded in Hpad.
  rewrite forallb_forall in Hpad.
  apply Z.eqb_eq, Hpad.
  apply nth_error_In with (n := (i - Z.to_nat (phaseCount p))%nat).
  rewrite nth_error_skipn.
  replace (Z.to_nat (phaseCount p) + (i - Z.to_nat (phaseCount p)))%nat
    with i by lia.
  exact Hnth.
Qed.

(** The invariant only looks at the index and the pattern. *)
Lemma index_inv_frame (m m' : Machine) :
  currentPhaseIndex m' = currentPhaseIndex m ->
  currentPattern m' = currentPattern m ->
  index_inv m -> index_inv m'.
Proof.
  unfold index_inv, phaseAt. intros -> ->. exact (fun H => H).
Qed.

Lemma index_inv_reset (m m' : Machine) :
  currentPhaseIndex m' = 0 ->
  currentPattern m' = currentPattern m ->
  index_inv m -> index_inv m'.
Proof.
  unfold index_inv, phaseAt. intros -> ->. intros (_ & Hfit & _).
  split; [lia | split; [exact Hfit | left; lia]].
Qed.

Lemma index_inv_load (m m' : Machine) (p : AttackPattern) :
  In p PROVEN_PATTERNS ->
  currentPhaseIndex m' = currentPhaseIndex m ->
  currentPattern m' = p ->
  index_inv m -> index_inv m'.
Proof.
  intros Hin Hidx Hpat (Hrange & _ & _).
  destruct (catalog_fits p Hin) as [Hfit Hpad].
  unfold index_inv. rewrite Hidx, Hpat.
  split; [exact Hrange | split; [exact Hfit|]].
  destruct (Z_lt_ge_dec (currentPhaseIndex m) (Z.max (phaseCount p) 1))
    as [Hlt | Hge]; [now left | right].
  assert (Hrange' : 0 <= currentPhaseIndex m' < 20) by (rewrite Hidx; lia).
  assert (Hfit' : fits_array (currentPattern m')) by now rewrite Hpat.
  destruct (slot_exists m' Hrange' Hfit') as [ph Hph].
  exists ph. split; [exact Hph|].
  unfold phaseAt in Hph. rewrite Hidx, Hpat in Hph.
  apply (zero_padded_slot p (Z.to_nat (currentPhaseIndex m)) ph Hpad);
    [lia | exact Hph].
Qed.

Lemma index_inv_setup (stored : AttackPattern) :
  fits_array stored -> index_inv (setup stored boot).
Proof.
  intros Hfit. unfold index_inv. cbn.
  split; [lia | split; [exact Hfit | left; lia]].
Qed.

Lemma index_inv_command (now : Z) (cmd : string) (m m' : Machine) :
  index_inv m -> processCommand now cmd m = Returned m' -> index_inv m'.
Proof.
  intros Hinv. revert m'.
  apply processCommand_cases; intros; try discriminate;
    match goal with
    | H : Returned _ = Returned _ |- _ => injection H as <-
    end;
    try exact Hinv;
    try (apply (index_inv_frame m); [| | exact Hinv];
         rewrite emits_eq; reflexivity).
  - apply (index_inv_reset m); [| | exact Hinv]; reflexivity.
  - apply (index_inv_load m _ p); [| | | exact Hinv];
      [eapply nth_error_In; eassumption | |]; reflexivity.
Qed.

Lemma wrap8_range (z : Z) : 0 <= wrap8 z < 256.
Proof. unfold wrap8. apply Z.mod_pos_bound. lia. Qed.

Lemma index_inv_advance (now : Z) (evs : list Event) (m : Machine) :
  index_inv m ->
  let m' := advancePhase now (emits evs m) in
  index_inv m'
  /\ 0 <= currentPhaseIndex m' < Z.max (phaseCount (currentPattern m')) 1.
Proof.
  intros (Hrange & Hfit & _) m'. subst m'.
  rewrite advancePhase_eq, !emits_eq.
  cbn [currentPattern currentPhaseIndex globalCycleCount].
  pose proof (wrap8_range (currentPhaseIndex m + 1)) as Hw.
  destruct Hfit as [Hlen Hpc].
  destruct (phaseCount (currentPattern m) <=? wrap8 (currentPhaseIndex m + 1))
    eqn:Ele.
  - unfold index_inv, fits_array. cbn.
    split; [|lia]. split; [lia | split; [tauto | left; lia]].
  - apply Z.leb_gt in Ele. unfold index_inv, fits_array. cbn.
    split; [|lia]. split; [lia | split; [tauto | left; lia]].
Qed.

Lemma index_inv_tick (now : Z) (m : Machine) :
  index_inv m ->
  exists m',
    processAutonomousCycle now m = Returned m'
    /\ index_inv m'
    /\ (currentState m = STATE_CYCLING ->
        0 <= currentPhaseIndex m'
             < Z.max (phaseCount (currentPattern m')) 1).
Proof.
  intros Hinv.
  apply processAutonomousCycle_cases.
  - intros Hst. exists m.
    split; [reflexivity | split; [exact Hinv | intros Hc; contradiction]].
  - intros _ Hnone. destruct Hinv as (Hrange & Hfit & _).
    destruct (slot_exists m Hrange Hfit) as [ph Hph]. congruence.
  - intros ph _ Hph Hwait. exists m. split; [reflexivity|].
    split; [exact Hinv|]. intros _.
    destruct Hinv as (Hrange & _ & [Hlt | (ph' & Hph' & Hzero)]); [lia|].
    pose proof (wrap32_nonneg (now - cycleStartTime m)).
    rewrite Hph in Hph'. injection Hph' as <-. lia.
  - intros ph _ _ _. eexists. split; [reflexivity|].
    destruct (index_inv_advance now
                (driver_events (ledGroup ph) (intensity ph)) m Hinv)
      as [Hinv' Hrange'].
    split; [exact Hinv' | intros _; exact Hrange'].
Qed.

(** From here on the stored pattern is fixed and fits the struct. *)
Section FromStored.

Variable stored : AttackPattern.
Hypothesis stored_fits : fits_array stored.

Lemma reachable_inv (m : Machine) : reachable stored m -> index_inv m.
Proof.
  intros Hreach.
  induction Hreach as [| m _ IH | m b _ IH | m now cmd m' _ IH Hcmd
                      | m now m' _ IH Htick].
  - now apply index_inv_setup.
  - exact (index_inv_frame m _ eq_refl eq_refl IH).
  - exact (index_inv_frame m _ eq_refl eq_refl IH).
  - exact (index_inv_command now cmd m m' IH Hcmd).
  - destruct (index_inv_tick now m IH) as (m2 & Hrun & Hinv2 & _).
    rewrite Hrun in Htick. apply Returned_inj in Htick. now subst m'.
Qed.

(** A tick in a reachable machine returns, in a reachable machine. *)
Lemma tick_sound (now : Z) (m : Machine) :
  reachable stored m -> sound stored (processAutonomousCycle now m).
Proof.
  intros Hreach.
  destruct (index_inv_tick now m (reachable_inv m Hreach)) as (m' & Hrun & _).
  rewrite Hrun. exact (reach_tick stored m now m' Hreach Hrun).
Qed.

Lemma loop_sound (inp : Inputs) (m : Machine) :
  reachable stored m -> sound stored (loop inp m).
Proof.
  intros Hreach. unfold loop.
  set (m0 := set_safetyEngaged (safetyPinLow inp) m).
  assert (Hreach0 : reachable stored m0) by now apply reach_sample.
  destruct (emergencyTriggered m0 || negb (safetyEngaged m0)).
  { destruct (negb (state_eqb (currentState m0) STATE_IDLE));
      [exact I | exact Hreach0]. }
  unfold processSerialCommand.
  destruct (serialLine inp) as [line|]; [| now apply tick_sound].
  pose proof (processCommand_relay (millisCmd inp) (trim line) m0) as Hc.
  destruct (processCommand (millisCmd inp) (trim line) m0)
    as [m1 | m1 |] eqn:Ecmd; cbn [bind].
  - apply tick_sound. exact (reach_command stored m0 _ _ m1 Hreach0 Ecmd).
  - exact I.
  - destruct Hc.
Qed.

Lemma run_sound (evs : list SysEvent) :
  forall o, sound stored o -> sound stored (run evs o).
Proof.
  induction evs as [|e evs IH]; intros o Ho; [exact Ho|].
  cbn [run fold_left]. apply IH.
  destruct o as [m | m |], e as [inp|]; cbn [sys_step]; try exact I;
    try exact Ho.
  - now apply loop_sound.
  - now apply reach_interrupt.
Qed.

End FromStored.

End IndexInvariant.

(** C9: when the stored pattern fits the struct (20 slots, phase count at
    most 20), every machine the device reaches has its phase index below
    20, so the read of [phases[currentPhaseIndex]] made by
    [processAutonomousCycle] is inside the array; a call made while Cycling
    returns with the index in [0, max(phaseCount, 1)).  No run of loop
    passes and interrupts from [setup] ends in an out-of-bounds read. *)
Theorem phase_index_stays_in_bounds :
  forall stored : AttackPattern,
    Props.fits_array stored ->
    (forall (m : Machine) (now : Z),
        Props.reachable stored m ->
        0 <= currentPhaseIndex m < 20
        /\ phaseCount (currentPattern m) <= 20
        /\ (exists ph, Firmware.phaseAt m = Some ph)
        /\ Firmware.processAutonomousCycle now m <> Undefined
        /\ (currentState m = STATE_CYCLING ->
            exists m',
              Firmware.processAutonomousCycle now m = Returned m'
              /\ 0 <= currentPhaseIndex m'
                   < Z.max (phaseCount (currentPattern m')) 1))
    /\ (forall evs : list Firmware.SysEvent,
          Firmware.run evs (Returned (Firmware.setup stored Firmware.boot))
          <> Undefined)
    /\ (forall (evs : list Firmware.SysEvent) (m : Machine),
          Firmware.run evs (Returned (Firmware.setup stored Firmware.boot))
          = Returned m ->
          Props.reachable stored m).
Proof.
  intros stored Hfit. split; [| split].
  - intros m now Hreach.
    pose proof (reachable_inv stored Hfit m Hreach) as Hinv.
    destruct (index_inv_tick now m Hinv) as (m' & Hrun & _ & Hcyc).
    destruct Hinv as (Hrange & Hfit' & _).
    split; [exact Hrange|]. split; [apply Hfit'|].
    split; [now apply slot_exists|].
    split; [rewrite Hrun; discriminate|].
    intros Hst. exists m'. split; [exact Hrun | exact (Hcyc Hst)].
  - intros evs Hrun.
    pose proof (run_sound stored Hfit evs
                  (Returned (Firmware.setup stored Firmware.boot))
                  (Props.reach_setup stored)) as Hs.
    rewrite Hrun in Hs. exact Hs.
  - intros evs m Hrun.
    pose proof (run_sound stored Hfit evs
                  (Returned (Firmware.setup stored Firmware.boot))
                  (Props.reach_setup stored)) as Hs.
    rewrite Hrun in Hs. exact Hs.
Qed.

(** The proviso of the bounds claim is needed: a stored record with a
    phase count of 21 drives the index to 20 and the next tick reads past
    the array. *)
Lemma oversized_pattern_overruns :
  ~ Props.fits_array Scenarios.oversized
  /\ Scenarios.oversized_run = Undefined.
Proof.
  split; [intros [_ Hpc]; cbn in Hpc; lia | vm_compute; reflexivity].
Qed.

(** The bounds claim on the two-phase pattern and its run. *)
Lemma phase_index_stays_in_bounds_witness :
  Props.fits_array Scenarios.two_phase
  /\ Scenarios.two_phase_run <> Undefined.
Proof.
  assert (Hfit : Props.fits_array Scenarios.two_phase)
    by (split; [reflexivity | cbn; lia]).
  split; [exact Hfit|].
  destruct (phase_index_stays_in_bounds Scenarios.two_phase Hfit)
    as (_ & Hrun & _).
  apply Hrun.
Defined.

(** ** What a tick does *)

(** The device reaches [Scenarios.stale_index] from power-up on the
    two-phase pattern: ARM, START_CYCLE, the tick at 50 ms, then
    LOAD_PATTERN:1 at 60 ms. *)
Lemma stale_index_reachable :
  Props.reachable Scenarios.two_phase Scenarios.stale_index.
Proof.
  assert (Hfit : Props.fits_array Scenarios.two_phase)
    by (split; [reflexivity | cbn; lia]).
  pose proof (run_sound Scenarios.two_phase Hfit
                [ Scenarios.engaged (Some "ARM") 0;
                  Scenarios.engaged (Some "START_CYCLE") 0;
                  Scenarios.engaged None 50 ]
                (Returned (Firmware.setup Scenarios.two_phase Firmware.boot))
                (Props.reach_setup Scenarios.two_phase)) as Hrun.
  assert (E : Firmware.run
                [ Scenarios.engaged (Some "ARM") 0;
                  Scenarios.engaged (Some "START_CYCLE") 0;
                  Scenarios.engaged None 50 ]
                (Returned (Firmware.setup Scenarios.two_phase Firmware.boot))
              = Returned Scenarios.cycling_lit) by by_evaluation.
  rewrite E in Hrun. cbn [Props.sound] in Hrun.
  apply (Props.reach_command Scenarios.two_phase Scenarios.cycling_lit 60
           "LOAD_PATTERN:1" Scenarios.stale_index Hrun).
  by_evaluation.
Qed.

(** C4, as worded, fails after a load in mid-cycle: with the one-phase
    pattern Sensor_Saturation_Blast (5000 ms at group 4, intensity 255)
    loaded while the index was 1, the device is Cycling with the index on
    a zero-filled slot; the tick at 60 ms fires at once, applies group 0
    at intensity 0, which is no phase of the pattern, and counts and
    reports a completed cycle. *)
Lemma stale_index_counterexample :
  Props.reachable Scenarios.two_phase Scenarios.stale_index
  /\ currentState Scenarios.stale_index = STATE_CYCLING
  /\ currentPattern Scenarios.stale_index = Scenarios.saturation_blast
  /\ Props.schedulable (currentPattern Scenarios.stale_index) = true
  /\ phaseCount (currentPattern Scenarios.stale_index) = 1
  /\ currentPhaseIndex Scenarios.stale_index = 1
  /\ Firmware.phaseAt Scenarios.stale_index = Some zeroPhase
  /\ (exists m',
        Firmware.processAutonomousCycle 60 Scenarios.stale_index = Returned m'
        /\ Props.new_events Scenarios.stale_index m'
           = Props.driver_events 0 0 ++ Props.cycle_complete 1
        /\ currentPhaseIndex m' = 0
        /\ globalCycleCount m' = 1)
  /\ ~ Worded.tick_follows_pattern 60 Scenarios.stale_index.
Proof.
  assert (Hrun :
            Firmware.processAutonomousCycle 60 Scenarios.stale_index
            = Returned
                (Scenarios.machine_of
                   (Firmware.processAutonomousCycle 60 Scenarios.stale_index)))
    by by_evaluation.
  assert (Hev :
            Props.new_events Scenarios.stale_index
              (Scenarios.machine_of
                 (Firmware.processAutonomousCycle 60 Scenarios.stale_index))
            = Props.driver_events 0 0 ++ Props.cycle_complete 1)
    by by_evaluation.
  assert (Hfirst :
            nth_error (phases (currentPattern Scenarios.stale_index)) 0
            = Some (mkPhase 4 5000 255))
    by by_evaluation.
  split; [exact stale_index_reachable|].
  split; [by_evaluation|]. split; [by_evaluation|].
  split; [by_evaluation|]. split; [by_evaluation|].
  split; [by_evaluation|]. split; [by_evaluation|]. split.
  - eexists. split; [exact Hrun|]. split; [exact Hev|].
    split; by_evaluation.
  - intros Hclaim.
    assert (Hdue : durationMs zeroPhase
                   <= wrap32 (60 - cycleStartTime Scenarios.stale_index))
      by (vm_compute; discriminate).
    destruct (Hclaim ltac:(by_evaluation) ltac:(by_evaluation) zeroPhase
                ltac:(by_evaluation) Hdue)
      as (m' & k & phk & Hrun' & Hk & Hnth & Hev' & _).
    replace (phaseCount (currentPattern Scenarios.stale_index)) with 1
      in Hk by by_evaluation.
    assert (k = 0) by lia. subst k.
    change (Z.to_nat 0) with 0%nat in Hnth.
    rewrite Hfirst in Hnth. apply (f_equal (fun o => match o with
                                                     | Some x => intensity x
                                                     | None => 0
                                                     end)) in Hnth.
    cbn in Hnth.
    rewrite Hrun in Hrun'. apply Returned_inj in Hrun'.
    rewrite <- Hrun', Hev in Hev'.
    apply (f_equal (fun l => nth_error l 1)) in Hev'.
    destruct phk as [g d i]. cbn in Hnth. subst i.
    assert (Hg : exists e, nth_error
                             (Props.driver_events g 255
                              ++ (if 0 + 1 =?
                                     phaseCount
                                       (currentPattern Scenarios.stale_index)
                                  then Props.cycle_complete
                                         (globalCycleCount
                                            Scenarios.stale_index + 1)
                                  else [])) 1 = Some e
                           /\ e <> EvAnalogWrite HAT_PIN 0).
    { replace (phaseCount (currentPattern Scenarios.stale_index)) with 1
        by by_evaluation.
      replace (globalCycleCount Scenarios.stale_index) with 0
        by by_evaluation.
      destruct g as [|p|p]; cbn; try (eexists; split; [reflexivity|]);
        try discriminate.
      do 3 (destruct p as [p|p|]; cbn;
            try (eexists; split; [reflexivity|]); try discriminate). }
    destruct Hg as (e & He & Hne).
    cbn [ledGroup intensity] in Hev'. rewrite He in Hev'.
    cbn in Hev'. injection Hev' as Heq. now apply Hne.
Qed.

(** C4, amended: while Cycling, a tick reads the slot of the phase array
    at the current index.  Before that slot's duration has elapsed since
    the phase clock (in 32-bit millisecond arithmetic) it changes nothing;
    from then on it applies the slot's group and intensity to the output
    driver once, moves the index up by one (in 8 bits), or to 0 with the
    completed-cycle count one higher in 32 bits and reported when the new
    index reaches the phase count, and restarts the phase clock at [now].
    Every Cycling machine the device reaches reads a slot inside the
    array.  When the index is below the phase count, the slot is the
    pattern's current phase, the wrap comes exactly after the last phase
    and the index stays below the phase count; so from there, over any
    sequence of ticks, the phases are applied once each and in pattern
    order, with one cycle counted at each wrap.  The two-phase pattern of
    50 ms phases ticked every 10 ms up to 220 ms completes 2 cycles. *)
Theorem tick_applies_slot_once :
  (forall (m : Machine) (now : Z) (ph : AttackPhase),
      currentState m = STATE_CYCLING ->
      Firmware.phaseAt m = Some ph ->
      let wraps :=
        phaseCount (currentPattern m) <=? wrap8 (currentPhaseIndex m + 1) in
      (wrap32 (now - cycleStartTime m) < durationMs ph ->
       Firmware.processAutonomousCycle now m = Returned m)
      /\ (durationMs ph <= wrap32 (now - cycleStartTime m) ->
          exists m',
            Firmware.processAutonomousCycle now m = Returned m'
            /\ Props.new_events m m'
               = Props.driver_events (ledGroup ph) (intensity ph)
                 ++ (if wraps
                     then Props.cycle_complete
                            (wrap32 (globalCycleCount m + 1))
                     else [])
            /\ currentPhaseIndex m'
               = (if wraps then 0 else wrap8 (currentPhaseIndex m + 1))
            /\ globalCycleCount m'
               = (if wraps then wrap32 (globalCycleCount m + 1)
                  else globalCycleCount m)
            /\ cycleStartTime m' = now
            /\ currentPattern m' = currentPattern m
            /\ currentState m' = STATE_CYCLING))
  /\ (forall (stored : AttackPattern) (m : Machine),
        Props.fits_array stored ->
        Props.reachable stored m ->
        currentState m = STATE_CYCLING ->
        (exists ph, Firmware.phaseAt m = Some ph)
        /\ wrap8 (currentPhaseIndex m + 1) = currentPhaseIndex m + 1)
  /\ (forall (m : Machine) (now : Z) (ph : AttackPhase),
        currentState m = STATE_CYCLING ->
        Firmware.phaseAt m = Some ph ->
        0 <= currentPhaseIndex m < phaseCount (currentPattern m) ->
        phaseCount (currentPattern m) <= 255 ->
        durationMs ph <= wrap32 (now - cycleStartTime m) ->
        let last :=
          currentPhaseIndex m + 1 =? phaseCount (currentPattern m) in
        exists m',
          Firmware.processAutonomousCycle now m = Returned m'
          /\ Props.new_events m m'
             = Props.driver_events (ledGroup ph) (intensity ph)
               ++ (if last
                   then Props.cycle_complete (wrap32 (globalCycleCount m + 1))
                   else [])
          /\ currentPhaseIndex m'
             = (if last then 0 else currentPhaseIndex m + 1)
          /\ globalCycleCount m'
             = (if last then wrap32 (globalCycleCount m + 1)
                else globalCycleCount m)
          /\ cycleStartTime m' = now
          /\ currentPattern m' = currentPattern m
          /\ currentState m' = STATE_CYCLING
          /\ 0 <= currentPhaseIndex m' < phaseCount (currentPattern m'))
  /\ (forall (times : list Z) (m : Machine),
        currentState m = STATE_CYCLING ->
        Props.fits_array (currentPattern m) ->
        0 <= currentPhaseIndex m < phaseCount (currentPattern m) ->
        exists (n : nat) (m' : Machine),
          (n <= List.length times)%nat
          /\ Props.tick_run times m = Returned m'
          /\ Props.new_events m m'
             = Props.boundary_events (currentPattern m) n
                 (currentPhaseIndex m) (globalCycleCount m)
          /\ currentPhaseIndex m'
             = (currentPhaseIndex m + Z.of_nat n)
               mod phaseCount (currentPattern m)
          /\ wrap32 (globalCycleCount m')
             = wrap32 (globalCycleCount m
                       + (currentPhaseIndex m + Z.of_nat n)
                         / phaseCount (currentPattern m)))
  /\ Scenarios.completed Scenarios.two_phase_run = Some 2
  /\ Scenarios.effects_since (Firmware.setup Scenarios.two_phase Firmware.boot)
       Scenarios.two_phase_run
     = Some ([EvPrintln (Txt "ACK_ARMED"); EvPrintln (Txt "CYCLE_STARTED")]
             ++ Props.driver_events 0 255 ++ Props.driver_events 1 128
             ++ Props.cycle_complete 1
             ++ Props.driver_events 0 255 ++ Props.driver_events 1 128
             ++ Props.cycle_complete 2).
Proof.
  split; [| split; [| split; [| split; [| split; reflexivity]]]].
  - intros m now ph Hst Hph wraps. split.
    + now apply tick_waits.
    + intros Hfire.
      destruct (tick_fires m now ph Hst Hph Hfire)
        as (m' & Hrun & Htr & Hrest).
      exists m'. split; [exact Hrun|].
      split; [exact (new_events_app m m' _ Htr) | exact Hrest].
  - intros stored m Hfit Hreach _.
    destruct (reachable_inv stored Hfit m Hreach) as (Hrange & Hfit' & _).
    split; [now apply slot_exists | apply Z.mod_small; lia].
  - intros m now ph Hst Hph Hidx Hpc Hfire last.
    destruct (tick_fires_in_range m now ph Hst Hph Hidx Hpc Hfire)
      as (m' & Hrun & Htr & Hrest).
    exists m'. split; [exact Hrun|].
    split; [exact (new_events_app m m' _ Htr) | exact Hrest].
  - intros times m Hst Hfit Hidx.
    destruct (tick_run_in_order times m Hst Hfit Hidx)
      as (n & m' & Hn & Hrun & Htr & Hidx' & Hcnt' & _).
    exists n, m'. split; [exact Hn|]. split; [exact Hrun|].
    split; [exact (new_events_app m m' _ Htr)|].
    split; [exact Hidx' | exact Hcnt'].
Qed.

(** The amended sequencer claim on the two-phase pattern, first phase, at
    50 ms. *)
Lemma tick_applies_slot_once_witness :
  exists m',
    Firmware.processAutonomousCycle 50
      (set_currentState STATE_CYCLING
         (Firmware.setup Scenarios.two_phase Firmware.boot))
    = Returned m'
    /\ currentPhaseIndex m' = 1
    /\ globalCycleCount m' = 0
    /\ cycleStartTime m' = 50.
Proof.
  destruct tick_applies_slot_once as (_ & _ & Htick & _).
  destruct (Htick
              (set_currentState STATE_CYCLING
                 (Firmware.setup Scenarios.two_phase Firmware.boot))
              50 (mkPhase 0 50 255))
    as (m' & Hrun & _ & Hidx & Hcnt & Hstart & _);
    try reflexivity; try (cbn; lia).
  exists m'. repeat split; assumption.
Defined.

(** ** The emergency path *)

Section Emergency.

Import WString Firmware Props.

Lemma emergency_entry (m : Machine) :
  let m' := emits emergency_events
              (set_currentState STATE_EMERGENCY
                 (set_emergencyTriggered true m)) in
  currentState m' = STATE_EMERGENCY
  /\ emergencyTriggered m' = true
  /\ channels_off (pins m') = true
  /\ relay (pins m') = Digital false
  /\ new_events m m' = emergency_events
  /\ cursor m' = cursor m
  /\ currentPattern m' = currentPattern m.
Proof.
  cbv zeta. repeat split.
  apply new_events_app. rewrite emits_trace. reflexivity.
Qed.

(** With the latch set or the interlock open, a pass of the loop enters
    the emergency handler unless the state is Idle. *)
Lemma loop_tripped (inp : Inputs) (m : Machine) :
  emergencyTriggered m = true \/ safetyPinLow inp = false ->
  loop inp m =
  if state_eqb (currentState m) STATE_IDLE
  then Returned (set_safetyEngaged (safetyPinLow inp) m)
  else emergencyHandler (set_safetyEngaged (safetyPinLow inp) m).
Proof.
  intros Htrip. unfold loop. cbn [emergencyTriggered safetyEngaged
    set_safetyEngaged currentState].
  replace (emergencyTriggered m || negb (safetyPinLow inp)) with true.
  - now destruct (state_eqb (currentState m) STATE_IDLE).
  - destruct Htrip as [-> | ->]; [reflexivity | apply eq_sym, orb_true_r].
Qed.

Lemma state_eqb_idle (m : Machine) :
  state_eqb (currentState m) STATE_IDLE = true <-> currentState m = STATE_IDLE.
Proof. destruct (currentState m); cbn; split; congruence. Qed.

Lemma latched_step (m : Machine) (o : Outcome) (e : SysEvent) :
  latched_from m o -> latched_from m (sys_step o e).
Proof.
  destruct o as [m1 | m1 |], e as [inp|]; cbn [sys_step latched_from];
    try tauto.
  intros (Hflag & Hst & Hpins & Htr & Hcur & Hpat).
  rewrite (loop_tripped inp m1 (or_introl Hflag)).
  destruct (state_eqb (currentState m1) STATE_IDLE).
  - cbn. tauto.
  - rewrite emergencyHandler_eq. cbn. tauto.
Qed.

Lemma latched_run (m : Machine) (evs : list SysEvent) :
  forall o, latched_from m o -> latched_from m (run evs o).
Proof.
  induction evs as [|e evs IH]; intros o Ho; [exact Ho|].
  cbn [run fold_left]. apply IH, latched_step, Ho.
Qed.

End Emergency.

(** C1, as worded, fails in Idle: with the latch set right after [setup],
    the next pass of the loop returns at once, the state stays Idle, and
    the pending ARM is not even read. *)
Lemma latch_in_idle_counterexample :
  emergencyTriggered Scenarios.idle_latched = true
  /\ Firmware.loop Scenarios.arm_pass Scenarios.idle_latched
     = Returned (set_safetyEngaged true Scenarios.idle_latched)
  /\ ~ Worded.latch_forces_emergency Scenarios.arm_pass Scenarios.idle_latched.
Proof.
  split; [reflexivity|]. split; [reflexivity|].
  intros Hclaim. destruct (Hclaim eq_refl) as (m' & [Hrun | Hrun] & Hst & _).
  - discriminate Hrun.
  - apply Returned_inj in Hrun. rewrite <- Hrun in Hst. discriminate Hst.
Qed.

(** C1, amended: with the latch set, a pass of the loop in any state but
    Idle enters the emergency handler before reading a command or
    ticking: the state is Emergency, the four channels and the relay are
    low, and control never comes back; in Idle the pass returns at once
    and changes nothing but the interlock sample.  From then on, whatever
    passes and interrupts follow, no command is processed and the state
    only ever changes to Emergency.  The EMERGENCY command enters the
    handler from every state, Idle included. *)
Theorem latch_forces_emergency_unless_idle :
  (forall m : Machine,
      emergencyTriggered m = true ->
      (forall inp : Firmware.Inputs,
          currentState m <> STATE_IDLE ->
          exists m',
            Firmware.loop inp m = Halted m'
            /\ currentState m' = STATE_EMERGENCY
            /\ channels_off (pins m') = true
            /\ relay (pins m') = Digital false
            /\ Props.new_events m m' = Props.emergency_events
            /\ Props.cursor m' = Props.cursor m)
      /\ (forall inp : Firmware.Inputs,
             currentState m = STATE_IDLE ->
             Firmware.loop inp m
             = Returned (set_safetyEngaged (Firmware.safetyPinLow inp) m))
      /\ (forall evs : list Firmware.SysEvent,
             Props.latched_from m (Firmware.run evs (Returned m))))
  /\ (forall (m : Machine) (now : Z),
        exists m',
          Firmware.processCommand now "EMERGENCY" m = Halted m'
          /\ currentState m' = STATE_EMERGENCY
          /\ emergencyTriggered m' = true
          /\ channels_off (pins m') = true
          /\ relay (pins m') = Digital false).
Proof.
  split.
  - intros m Hflag. split; [| split].
    + intros inp Hst. rewrite (loop_tripped inp m (or_introl Hflag)).
      destruct (state_eqb (currentState m) STATE_IDLE) eqn:E.
      * now apply state_eqb_idle in E.
      * rewrite emergencyHandler_eq. eexists. split; [reflexivity|].
        destruct (emergency_entry
                    (set_safetyEngaged (Firmware.safetyPinLow inp) m))
          as (H1 & _ & H3 & H4 & H5 & H6 & _).
        repeat split; assumption.
    + intros inp Hst. rewrite (loop_tripped inp m (or_introl Hflag)).
      apply state_eqb_idle in Hst. now rewrite Hst.
    + intros evs. apply latched_run. cbn. tauto.
  - intros m now. eexists. split; [reflexivity|].
    repeat split.
Qed.

(** The amended latch claim on the machine that is Cycling with the first
    channel lit, once the interrupt has fired. *)
Lemma latch_forces_emergency_unless_idle_witness :
  exists m',
    Firmware.loop Scenarios.arm_pass
      (Firmware.emergencyISR Scenarios.cycling_lit) = Halted m'
    /\ currentState m' = STATE_EMERGENCY
    /\ channels_off (pins m') = true.
Proof.
  destruct latch_forces_emergency_unless_idle as [Hlatch _].
  destruct (Hlatch (Firmware.emergencyISR Scenarios.cycling_lit) eq_refl)
    as [Hbusy _].
  destruct (Hbusy Scenarios.arm_pass) as (m' & Hrun & Hst & Hoff & _).
  - vm_compute. discriminate.
  - exists m'. repeat split; assumption.
Defined.

(** C2, as worded, fails: on the machine that is Cycling with the first
    channel lit, a pass that reads the interlock open ends in the
    emergency handler, with the state Emergency and the lit channel
    driven low. *)
Lemma open_interlock_counterexample :
  currentState Scenarios.cycling_lit = STATE_CYCLING
  /\ emergencyTriggered Scenarios.cycling_lit = false
  /\ hat (pins Scenarios.cycling_lit) = Pwm 255
  /\ (exists m',
        Firmware.loop Scenarios.open_pass Scenarios.cycling_lit = Halted m'
        /\ currentState m' = STATE_EMERGENCY
        /\ hat (pins m') = Digital false)
  /\ ~ Worded.interlock_only_freezes Scenarios.open_pass Scenarios.cycling_lit.
Proof.
  assert (Hrun0 :
            Firmware.loop Scenarios.open_pass Scenarios.cycling_lit
            = Halted
                (Scenarios.machine_of
                   (Firmware.loop Scenarios.open_pass Scenarios.cycling_lit)))
    by by_evaluation.
  assert (Hst0 :
            currentState
              (Scenarios.machine_of
                 (Firmware.loop Scenarios.open_pass Scenarios.cycling_lit))
            = STATE_EMERGENCY)
    by by_evaluation.
  split; [by_evaluation|]. split; [by_evaluation|].
  split; [by_evaluation|]. split.
  - eexists. split; [exact Hrun0|]. split; [exact Hst0|].
    vm_compute; reflexivity.
  - intros Hclaim.
    destruct (Hclaim ltac:(by_evaluation)
                ltac:(by_evaluation) eq_refl)
      as (m' & [Hrun | Hrun] & _ & _ & Hst).
    + rewrite Hrun0 in Hrun. apply Halted_inj in Hrun.
      rewrite <- Hrun in Hst. exact (Hst Hst0).
    + rewrite Hrun0 in Hrun. discriminate Hrun.
Qed.

(** C2, amended: a pass of the loop that reads the interlock open while
    the state is Cycling and the latch is clear does freeze the sequencer
    (index, phase clock, cycle count and pattern are untouched, no command
    is read), but the open interlock itself forces Emergency: the pass
    enters the emergency handler, which sets the latch and the state,
    drives the four channels and the relay low, and never returns. *)
Theorem open_interlock_while_cycling_forces_emergency :
  forall (m : Machine) (inp : Firmware.Inputs),
    currentState m = STATE_CYCLING ->
    emergencyTriggered m = false ->
    Firmware.safetyPinLow inp = false ->
    exists m',
      Firmware.loop inp m = Halted m'
      /\ currentState m' = STATE_EMERGENCY
      /\ emergencyTriggered m' = true
      /\ Props.cursor m' = Props.cursor m
      /\ currentPattern m' = currentPattern m
      /\ Props.new_events m m' = Props.emergency_events
      /\ channels_off (pins m') = true
      /\ relay (pins m') = Digital false.
Proof.
  intros m inp Hst _ Hpin.
  rewrite (loop_tripped inp m (or_intror Hpin)), Hst.
  cbn [state_eqb state_code Z.eqb]. rewrite emergencyHandler_eq.
  eexists. split; [reflexivity|].
  destruct (emergency_entry (set_safetyEngaged (Firmware.safetyPinLow inp) m))
    as (H1 & H2 & H3 & H4 & H5 & H6 & H7).
  repeat split; assumption.
Qed.

(** The amended interlock claim on the machine that is Cycling with the
    first channel lit. *)
Lemma open_interlock_while_cycling_forces_emergency_witness :
  exists m',
    Firmware.loop Scenarios.open_pass Scenarios.cycling_lit = Halted m'
    /\ currentState m' = STATE_EMERGENCY
    /\ Props.cursor m' = Props.cursor Scenarios.cycling_lit.
Proof.
  destruct (open_interlock_while_cycling_forces_emergency
              Scenarios.cycling_lit Scenarios.open_pass
              ltac:(vm_compute; reflexivity) ltac:(vm_compute; reflexivity)
              eq_refl)
    as (m' & Hrun & Hst & _ & Hcur & _).
  exists m'. repeat split; assumption.
Defined.

(** ** The state machine *)

Section StateMachine.

Import WString Firmware Props Table.

(** What a valid command does to the state and to the latch. *)
Lemma processCommand_wire (c : Command) (now : Z) (m : Machine) :
  exists m',
    processCommand now (trim (wire c)) m = Returned m'
    /\ currentState m' = firmware_step (currentState m) c
    /\ emergencyTriggered m' = emergencyTriggered m.
Proof.
  destruct c as [ | | | | payload | payload | | | ];
    try (eexists; split; [reflexivity | split; reflexivity]).
  - change (trim (wire START_CYCLE)) with "START_CYCLE".
    unfold processCommand. cbn [equals String.eqb Ascii.eqb Bool.eqb].
    destruct (currentState m) eqn:Est; cbn [state_eqb state_code Z.eqb];
      (eexists; split; [reflexivity|]); cbn; rewrite ?Est; split; reflexivity.
  - apply processCommand_cases;
      try (intros Heq; cbn in Heq; discriminate Heq).
    + intros p _ _ _. eexists. split; [reflexivity|]. split; reflexivity.
    + intros _ _. exists m. repeat split.
    + intros evs _ _. eexists. split; [reflexivity|].
      rewrite emits_eq. split; reflexivity.
    + intros _. exists m. repeat split.
  - apply processCommand_cases;
      try (intros Heq; cbn in Heq; discriminate Heq).
    + intros p Heq. cbn in Heq. discriminate Heq.
    + intros evs _ _. eexists. split; [reflexivity|].
      rewrite emits_eq. split; reflexivity.
    + intros _. exists m. repeat split.
Qed.

Lemma tick_state (now : Z) (m : Machine) :
  match processAutonomousCycle now m with
  | Returned m' =>
      currentState m' = currentState m
      /\ emergencyTriggered m' = emergencyTriggered m
  | Halted _ => False
  | Undefined => True
  end.
Proof.
  apply processAutonomousCycle_cases; intros; try (split; reflexivity).
  rewrite advancePhase_eq, !emits_eq.
  cbn [currentPattern currentPhaseIndex globalCycleCount].
  destruct (phaseCount (currentPattern m)
            <=? wrap8 (currentPhaseIndex m + 1));
    split; reflexivity.
Qed.

Lemma replay_from (stored : AttackPattern)
    (script : list (Command * (Z * Z))) :
  fits_array stored ->
  forall m,
    reachable stored m ->
    emergencyTriggered m = false ->
    exists m',
      run (map pass script) (Returned m) = Returned m'
      /\ currentState m'
         = fold_left firmware_step (map fst script) (currentState m)
      /\ emergencyTriggered m' = false.
Proof.
  intros Hfit.
  induction script as [|[c [t1 t2]] script IH]; intros m Hreach Hflag.
  - exists m. repeat split. exact Hflag.
  - cbn [map run fold_left sys_step pass fst snd].
    unfold loop. cbn [safetyPinLow serialLine millisCmd millisTick].
    set (m0 := set_safetyEngaged true m).
    change (emergencyTriggered m0) with (emergencyTriggered m).
    rewrite Hflag. cbn [safetyEngaged m0 set_safetyEngaged negb orb].
    unfold processSerialCommand. cbn [serialLine millisCmd].
    destruct (processCommand_wire c t1 m0) as (m1 & Hcmd & Hst1 & Hfl1).
    rewrite Hcmd. cbn [bind].
    assert (Hreach1 : reachable stored m1).
    { apply (reach_command stored m0 t1 (trim (wire c)) m1); [|exact Hcmd].
      now apply reach_sample. }
    destruct (index_inv_tick t2 m1 (reachable_inv stored Hfit m1 Hreach1))
      as (m2 & Htick & _).
    rewrite Htick.
    pose proof (tick_state t2 m1) as Hkeep. rewrite Htick in Hkeep.
    destruct Hkeep as [Hst2 Hfl2].
    destruct (IH m2) as (m' & Hrun & Hst & Hfl).
    + exact (reach_tick stored m1 t2 m2 Hreach1 Htick).
    + rewrite Hfl2, Hfl1. exact Hflag.
    + exists m'. split; [exact Hrun|]. split; [|exact Hfl].
      rewrite Hst, Hst2, Hst1. reflexivity.
Qed.

End StateMachine.

(** C3, as worded, fails: STOP_CYCLE sent to the freshly started device
    arms it, where the table of section 4.2 leaves it Idle; and STOP_CYCLE
    sent while the first channel is lit leaves that channel lit. *)
Lemma spec_table_counterexample :
  (exists m',
      Table.replay Scenarios.two_phase [(Table.STOP_CYCLE, (0, 0))]
      = Returned m'
      /\ currentState m' = STATE_ARMED)
  /\ Table.predict Table.spec_step [Table.STOP_CYCLE] = STATE_IDLE
  /\ ~ Worded.replay_follows_spec_table Scenarios.two_phase
         [(Table.STOP_CYCLE, (0, 0))]
  /\ ~ Worded.stop_forces_outputs_off 60 Scenarios.cycling_lit.
Proof.
  assert (Hrun0 :
            Table.replay Scenarios.two_phase [(Table.STOP_CYCLE, (0, 0))]
            = Returned
                (Scenarios.machine_of
                   (Table.replay Scenarios.two_phase
                      [(Table.STOP_CYCLE, (0, 0))])))
    by by_evaluation.
  assert (Hst0 :
            currentState
              (Scenarios.machine_of
                 (Table.replay Scenarios.two_phase
                    [(Table.STOP_CYCLE, (0, 0))]))
            = STATE_ARMED)
    by by_evaluation.
  assert (Hstop :
            Firmware.processCommand 60 "STOP_CYCLE" Scenarios.cycling_lit
            = Returned
                (Scenarios.machine_of
                   (Firmware.processCommand 60 "STOP_CYCLE"
                      Scenarios.cycling_lit)))
    by by_evaluation.
  assert (Hlit :
            channels_off
              (pins (Scenarios.machine_of
                       (Firmware.processCommand 60 "STOP_CYCLE"
                          Scenarios.cycling_lit)))
            = false)
    by by_evaluation.
  split; [eexists; split; [exact Hrun0 | exact Hst0]|].
  split; [reflexivity|]. split.
  - intros (m' & Hrun & Hst). rewrite Hrun0 in Hrun.
    apply Returned_inj in Hrun. rewrite <- Hrun, Hst0 in Hst.
    discriminate Hst.
  - intros (m' & Hrun & Hoff). rewrite Hstop in Hrun.
    apply Returned_inj in Hrun. rewrite <- Hrun, Hlit in Hoff.
    discriminate Hoff.
Qed.

(** C3, amended: after any sequence of valid commands replayed from
    [setup] with the interlock engaged and no emergency, the state is the
    one predicted by the table the firmware implements: ARM and STOP_CYCLE
    lead to Armed and DISARM leads to Idle from every state, START_CYCLE
    leads from Armed to Cycling and is ignored elsewhere, and the other
    commands leave the state alone.  DISARM drives the channels and the
    relay low; STOP_CYCLE writes no pin. *)
Theorem replay_follows_firmware_table :
  (forall (stored : AttackPattern) (script : list (Table.Command * (Z * Z))),
      Props.fits_array stored ->
      exists m',
        Table.replay stored script = Returned m'
        /\ currentState m'
           = Table.predict Table.firmware_step (map fst script)
        /\ emergencyTriggered m' = false)
  /\ (forall (now : Z) (m : Machine),
        exists m',
          Firmware.processCommand now "STOP_CYCLE" m = Returned m'
          /\ currentState m' = STATE_ARMED
          /\ pins m' = pins m)
  /\ (forall (now : Z) (m : Machine),
        exists m',
          Firmware.processCommand now "DISARM" m = Returned m'
          /\ currentState m' = STATE_IDLE
          /\ channels_off (pins m') = true
          /\ relay (pins m') = Digital false).
Proof.
  split; [| split].
  - intros stored script Hfit.
    exact (replay_from stored script Hfit _ (Props.reach_setup stored) eq_refl).
  - intros now m. eexists. split; [reflexivity|]. split; reflexivity.
  - intros now m. eexists. split; [reflexivity|]. repeat split.
Qed.

(** The amended table claim on ARM, START_CYCLE, DISARM. *)
Lemma replay_follows_firmware_table_witness :
  Props.fits_array Scenarios.two_phase
  /\ exists m',
       Table.replay Scenarios.two_phase
         [ (Table.ARM, (0, 0)); (Table.START_CYCLE, (0, 0));
           (Table.DISARM, (10, 10)) ]
       = Returned m'
       /\ currentState m' = STATE_IDLE.
Proof.
  assert (Hfit : Props.fits_array Scenarios.two_phase)
    by (split; [reflexivity | cbn; lia]).
  split; [exact Hfit|].
  destruct replay_follows_firmware_table as [Hreplay _].
  destruct (Hreplay Scenarios.two_phase
              [ (Table.ARM, (0, 0)); (Table.START_CYCLE, (0, 0));
                (Table.DISARM, (10, 10)) ] Hfit)
    as (m' & Hrun & Hst & _).
  exists m'. split; [exact Hrun | exact Hst].
Defined.

(** ** Loading patterns *)

Section Loading.

Import WString Firmware Props.

(** A LOAD_PATTERN line is none of the four commands tested before it. *)
Lemma load_line_not_fixed (cmd : string) :
  startsWith cmd "LOAD_PATTERN:" = true ->
  equals cmd "ARM" = false /\ equals cmd "DISARM" = false
  /\ equals cmd "START_CYCLE" = false /\ equals cmd "STOP_CYCLE" = false.
Proof.
  destruct cmd as [|c r]; [discriminate|].
  unfold startsWith. cbn [String.prefix].
  destruct (ascii_dec "L" c) as [<- | _]; [|discriminate].
  intros _. repeat split.
Qed.

Lemma processCommand_load (now : Z) (cmd : string) (m : Machine) :
  startsWith cmd "LOAD_PATTERN:" = true ->
  processCommand now cmd m =
  if load_index cmd <? PATTERN_COUNT then
    match nth_error PROVEN_PATTERNS (Z.to_nat (load_index cmd)) with
    | Some p =>
        Returned (emits [ EvPrint (Txt "PATTERN_LOADED:");
                          EvPrintln (Txt (name p)) ]
                    (set_currentPattern p m))
    | None => Undefined
    end
  else Returned m.
Proof.
  intros Hload.
  destruct (load_line_not_fixed cmd Hload) as (H1 & H2 & H3 & H4).
  unfold processCommand. rewrite H1, H2, H3, H4, Hload. reflexivity.
Qed.

Lemma catalog_entry (i : Z) :
  0 <= i < PATTERN_COUNT ->
  exists p, nth_error PROVEN_PATTERNS (Z.to_nat i) = Some p
            /\ In p PROVEN_PATTERNS.
Proof.
  intros Hi.
  destruct (nth_error PROVEN_PATTERNS (Z.to_nat i)) as [p|] eqn:E.
  - exists p. split; [reflexivity|]. eapply nth_error_In; eassumption.
  - apply nth_error_None in E. unfold PATTERN_COUNT in Hi. lia.
Qed.

Lemma load_index_nonneg (cmd : string) : 0 <= load_index cmd.
Proof. unfold load_index. apply wrap8_range. Qed.

Lemma catalog_schedulable (p : AttackPattern) :
  In p PROVEN_PATTERNS -> schedulable p = true.
Proof. intros [<- | [<- | [<- | []]]]; reflexivity. Qed.

(** A line that no branch recognises is dropped. *)
Lemma unrecognized_line_ignored (now : Z) (cmd : string) (m : Machine) :
  unrecognized cmd -> processCommand now cmd m = Returned m.
Proof.
  intros (H1 & H2 & H3 & H4 & H5 & H6 & H7 & H8 & H9 & H10).
  unfold processCommand.
  now rewrite H1, H2, H3, H4, H5, H6, H7, H8, H9, H10.
Qed.

(** LOAD_PATTERN:99 against the catalog of three is dropped. *)
Lemma load_99_ignored (now : Z) (m : Machine) :
  PATTERN_COUNT = 3
  /\ load_index "LOAD_PATTERN:99" = 99
  /\ processCommand now "LOAD_PATTERN:99" m = Returned m.
Proof. repeat split. Qed.

End Loading.

(** C5, as worded, fails: the stored pattern whose only phase lasts 0 ms
    is not schedulable, yet [setup] makes it the current pattern in place
    of the one before, and ARM then START_CYCLE run it: its phase is
    applied in the very pass that starts the cycle. *)
Lemma unvalidated_load_counterexample :
  Props.schedulable Scenarios.zero_duration = false
  /\ currentPattern (Firmware.setup Scenarios.zero_duration Firmware.boot)
     = Scenarios.zero_duration
  /\ ~ Worded.bad_pattern_rejected Scenarios.zero_duration Firmware.boot
  /\ currentState (Scenarios.machine_of Scenarios.zero_duration_run)
     = STATE_CYCLING
  /\ hat (pins (Scenarios.machine_of Scenarios.zero_duration_run)) = Pwm 255.
Proof.
  split; [reflexivity|]. split; [reflexivity|]. split.
  - intros Hclaim. specialize (Hclaim eq_refl). discriminate Hclaim.
  - split; by_evaluation.
Qed.

(** C5, amended: loads are not validated.  [setup] makes whatever pattern
    record is stored the current one, whether schedulable or not, and
    prints the same two lines either way.  LOAD_PATTERN installs catalog
    entries only, and every catalog entry has at least one phase and no
    phase shorter than 1 ms among its first [phaseCount]; the one load it
    rejects is an index outside the catalog, which leaves the machine as it
    was, current pattern included, and sends no acknowledgement. *)
Theorem loads_are_not_validated :
  (forall (stored : AttackPattern) (m : Machine),
      currentPattern (Firmware.setup stored m) = stored
      /\ Props.new_events m (Firmware.setup stored m) = Props.setup_events)
  /\ (forall p : AttackPattern,
        In p PROVEN_PATTERNS -> Props.schedulable p = true)
  /\ (forall (now : Z) (cmd : string) (m : Machine),
        WString.startsWith cmd "LOAD_PATTERN:" = true ->
        (Props.load_index cmd < PATTERN_COUNT ->
         exists p,
           In p PROVEN_PATTERNS
           /\ Props.schedulable p = true
           /\ Firmware.processCommand now cmd m
              = Returned
                  (Props.emits [ EvPrint (Txt "PATTERN_LOADED:");
                                 EvPrintln (Txt (name p)) ]
                     (set_currentPattern p m)))
        /\ (PATTERN_COUNT <= Props.load_index cmd ->
            Firmware.processCommand now cmd m = Returned m)).
Proof.
  split; [| split].
  - intros stored m. split; [reflexivity|].
    apply new_events_app. cbn. now rewrite <- !app_assoc.
  - exact catalog_schedulable.
  - intros now cmd m Hload. rewrite (processCommand_load now cmd m Hload).
    split.
    + intros Hlt.
      destruct (catalog_entry (Props.load_index cmd)) as (p & Hnth & Hin).
      { split; [apply load_index_nonneg | exact Hlt]. }
      exists p. split; [exact Hin|]. split; [now apply catalog_schedulable|].
      apply Z.ltb_lt in Hlt. now rewrite Hlt, Hnth.
    + intros Hge. apply Z.ltb_ge in Hge. now rewrite Hge.
Qed.

(** The amended load claim on LOAD_PATTERN:1 and LOAD_PATTERN:99. *)
Lemma loads_are_not_validated_witness :
  (exists p,
      In p PROVEN_PATTERNS
      /\ Props.schedulable p = true
      /\ Firmware.processCommand 0 "LOAD_PATTERN:1" Firmware.boot
         = Returned
             (Props.emits [ EvPrint (Txt "PATTERN_LOADED:");
                            EvPrintln (Txt (name p)) ]
                (set_currentPattern p Firmware.boot)))
  /\ Firmware.processCommand 0 "LOAD_PATTERN:99" Firmware.boot
     = Returned Firmware.boot.
Proof.
  destruct loads_are_not_validated as (_ & _ & Hload).
  split.
  - destruct (Hload 0 "LOAD_PATTERN:1" Firmware.boot eq_refl) as [Hin _].
    apply Hin. vm_compute. reflexivity.
  - destruct (Hload 0 "LOAD_PATTERN:99" Firmware.boot eq_refl) as [_ Hout].
    apply Hout. vm_compute. discriminate.
Defined.

(** C6, as worded, fails: LOAD_PATTERN:1 sent while the two-phase pattern
    is at its second phase installs the new pattern and leaves the phase
    index at 1; sent after two completed cycles it leaves the count at 2. *)
Lemma load_keeps_cursor_counterexample :
  currentPhaseIndex
    (Scenarios.machine_of
       (Firmware.processCommand 60 "LOAD_PATTERN:1" Scenarios.cycling_lit)) = 1
  /\ currentPattern
       (Scenarios.machine_of
          (Firmware.processCommand 60 "LOAD_PATTERN:1" Scenarios.cycling_lit))
     = Scenarios.saturation_blast
  /\ globalCycleCount
       (Scenarios.machine_of
          (Firmware.processCommand 230 "LOAD_PATTERN:1"
             Scenarios.after_two_cycles)) = 2
  /\ ~ Worded.load_resets_cursor 60 "LOAD_PATTERN:1" Scenarios.cycling_lit
  /\ ~ Worded.load_resets_cursor 230 "LOAD_PATTERN:1"
         Scenarios.after_two_cycles.
Proof.
  assert (Hrun1 :
            Firmware.processCommand 60 "LOAD_PATTERN:1" Scenarios.cycling_lit
            = Returned
                (Scenarios.machine_of
                   (Firmware.processCommand 60 "LOAD_PATTERN:1"
                      Scenarios.cycling_lit)))
    by by_evaluation.
  assert (Hrun2 :
            Firmware.processCommand 230 "LOAD_PATTERN:1"
              Scenarios.after_two_cycles
            = Returned
                (Scenarios.machine_of
                   (Firmware.processCommand 230 "LOAD_PATTERN:1"
                      Scenarios.after_two_cycles)))
    by by_evaluation.
  assert (Hidx :
            currentPhaseIndex
              (Scenarios.machine_of
                 (Firmware.processCommand 60 "LOAD_PATTERN:1"
                    Scenarios.cycling_lit)) = 1)
    by by_evaluation.
  assert (Hcnt :
            globalCycleCount
              (Scenarios.machine_of
                 (Firmware.processCommand 230 "LOAD_PATTERN:1"
                    Scenarios.after_two_cycles)) = 2)
    by by_evaluation.
  split; [exact Hidx|]. split; [by_evaluation|].
  split; [exact Hcnt|]. split.
  - intros Hclaim.
    destruct (Hclaim eq_refl ltac:(by_evaluation))
      as (m' & Hrun & Hzero & _).
    rewrite Hrun1 in Hrun. apply Returned_inj in Hrun.
    rewrite <- Hrun, Hidx in Hzero. discriminate Hzero.
  - intros Hclaim.
    destruct (Hclaim eq_refl ltac:(by_evaluation))
      as (m' & Hrun & _ & Hzero).
    rewrite Hrun2 in Hrun. apply Returned_inj in Hrun.
    rewrite <- Hrun, Hcnt in Hzero. discriminate Hzero.
Qed.

(** C6, amended: in every state, a LOAD_PATTERN line with an in-range
    index replaces the current pattern by the catalog entry in one step
    and acknowledges it with the entry's name; it leaves the cursor alone:
    phase index, phase start time and completed-cycle count keep their
    values, as do the state and the pins.  The index is put back to 0 by
    START_CYCLE from Armed, which also restarts the phase clock and keeps
    the completed-cycle count. *)
Theorem load_replaces_pattern_only :
  (forall (now : Z) (cmd : string) (m : Machine),
      WString.startsWith cmd "LOAD_PATTERN:" = true ->
      Props.load_index cmd < PATTERN_COUNT ->
      exists p m',
        nth_error PROVEN_PATTERNS (Z.to_nat (Props.load_index cmd)) = Some p
        /\ Firmware.processCommand now cmd m = Returned m'
        /\ currentPattern m' = p
        /\ Props.cursor m' = Props.cursor m
        /\ currentState m' = currentState m
        /\ pins m' = pins m
        /\ Props.new_events m m'
           = [EvPrint (Txt "PATTERN_LOADED:"); EvPrintln (Txt (name p))])
  /\ (forall (now : Z) (m : Machine),
        currentState m = STATE_ARMED ->
        exists m',
          Firmware.processCommand now "START_CYCLE" m = Returned m'
          /\ currentState m' = STATE_CYCLING
          /\ Props.cursor m' = (0, now, globalCycleCount m)
          /\ currentPattern m' = currentPattern m).
Proof.
  split.
  - intros now cmd m Hload Hlt.
    destruct (catalog_entry (Props.load_index cmd)) as (p & Hnth & _).
    { split; [apply load_index_nonneg | exact Hlt]. }
    rewrite (processCommand_load now cmd m Hload).
    apply Z.ltb_lt in Hlt. rewrite Hlt, Hnth.
    exists p. eexists. split; [reflexivity|]. split; [reflexivity|].
    rewrite emits_eq. cbn. repeat split.
    apply new_events_app. reflexivity.
  - intros now m Hst. unfold Firmware.processCommand.
    cbn [WString.equals String.eqb Ascii.eqb Bool.eqb]. rewrite Hst.
    cbn [state_eqb state_code Z.eqb Pos.eqb].
    eexists. split; [reflexivity|]. repeat split.
Qed.

(** The amended cursor claim on LOAD_PATTERN:1 sent mid-cycle. *)
Lemma load_replaces_pattern_only_witness :
  exists p m',
    Firmware.processCommand 60 "LOAD_PATTERN:1" Scenarios.cycling_lit
    = Returned m'
    /\ currentPattern m' = p
    /\ Props.cursor m' = Props.cursor Scenarios.cycling_lit.
Proof.
  destruct load_replaces_pattern_only as [Hload _].
  destruct (Hload 60 "LOAD_PATTERN:1" Scenarios.cycling_lit eq_refl)
    as (p & m' & _ & Hrun & Hpat & Hcur & _).
  - vm_compute. reflexivity.
  - exists p, m'. repeat split; assumption.
Defined.

(** The intensity of a SET_GROUP line is read from the colon on, one
    character before the number, so [toInt] gives 0 whatever the line
    says: group 4 at 255 drives the four channels with duty 0. *)
Lemma set_group_intensity_reads_zero :
  exists m',
    Firmware.processCommand 0 Scenarios.set_group_all_full Firmware.boot
    = Returned m'
    /\ Props.new_events Firmware.boot m'
       = Props.driver_events 4 0 ++ [EvPrintln (Txt "GROUP_SET")].
Proof.
  eexists. split; by_evaluation.
Qed.

(** C7: the claim holds of unrecognised lines and of LOAD_PATTERN:99, but
    the firmware breaks it on LOAD_PATTERN payloads that are not numbers
    or that wrap around in 8 bits: "LOAD_PATTERN:abc" and
    "LOAD_PATTERN:256" both select index 0, replace the current pattern by
    the first catalog entry and acknowledge the load.  A SET_GROUP line
    with both keys and no values drives the first channel to 0 and the
    relay high. *)
Theorem malformed_load_payload_loads_first_pattern :
  Props.load_index "LOAD_PATTERN:abc" = 0
  /\ Props.load_index "LOAD_PATTERN:256" = 0
  /\ (forall (now : Z) (m : Machine),
        Firmware.processCommand now "LOAD_PATTERN:abc" m
        = Returned
            (Props.emits [ EvPrint (Txt "PATTERN_LOADED:");
                           EvPrintln (Txt "AGC_Lock_5_Second") ]
               (set_currentPattern Scenarios.agc_lock m))
        /\ Firmware.processCommand now "LOAD_PATTERN:256" m
           = Firmware.processCommand now "LOAD_PATTERN:abc" m)
  /\ ~ Worded.malformed_load_ignored 0 "LOAD_PATTERN:abc"
         (Firmware.setup Scenarios.two_phase Firmware.boot)
  /\ hat (pins Scenarios.cycling_lit) = Pwm 255
  /\ hat (pins (Scenarios.machine_of
                  (Firmware.processCommand 60 Scenarios.garbled_set_group
                     Scenarios.cycling_lit))) = Pwm 0.
Proof.
  split; [reflexivity|]. split; [reflexivity|]. split.
  - intros now m. split; reflexivity.
  - split.
    + unfold Worded.malformed_load_ignored. intros Hclaim.
      apply Returned_inj in Hclaim.
      apply (f_equal (fun x => name (currentPattern x))) in Hclaim.
      vm_compute in Hclaim. discriminate Hclaim.
    + split; by_evaluation.
Qed.

(** ** Further properties of the sequencer *)

Section SequencerMore.

Import WString Firmware Props More.

Lemma wrap32_difference (a b : Z) :
  0 <= a - b < 4294967296 -> wrap32 (wrap32 a - wrap32 b) = a - b.
Proof.
  intros Hrange. unfold wrap32. rewrite <- Zminus_mod.
  now apply Z.mod_small.
Qed.

Lemma advancePhase_start (now : Z) (m : Machine) :
  cycleStartTime (advancePhase now m) = now.
Proof.
  rewrite advancePhase_eq.
  destruct (phaseCount (currentPattern m) <=? wrap8 (currentPhaseIndex m + 1));
    [rewrite emits_eq|]; reflexivity.
Qed.

(** A firing tick, with nothing assumed of the index. *)
Lemma tick_fires_any (m : Machine) (now : Z) (ph : AttackPhase) :
  currentState m = STATE_CYCLING ->
  phaseAt m = Some ph ->
  durationMs ph <= wrap32 (now - cycleStartTime m) ->
  processAutonomousCycle now m
  = Returned (advancePhase now
                (emits (driver_events (ledGroup ph) (intensity ph)) m)).
Proof.
  intros Hst Hph Hfire. unfold processAutonomousCycle, executeCurrentPhase.
  rewrite Hst, Hph. cbn [state_eqb state_code Z.eqb negb Pos.eqb].
  apply Z.leb_le in Hfire. rewrite Hfire. cbn [bind].
  now rewrite setLEDGroup_emits.
Qed.

End SequencerMore.

(** X1: the phase clock survives the roll-over of [millis()].  When the
    phase started at real time [started] and the tick comes at real time
    [at_tick], less than 2^32 ms later, the tick fires exactly when
    [at_tick - started] has reached the phase's duration, although the
    firmware only sees both times modulo 2^32. *)
Theorem tick_timing_survives_rollover :
  forall (m : Machine) (ph : AttackPhase) (started at_tick : Z),
    currentState m = STATE_CYCLING ->
    Firmware.phaseAt m = Some ph ->
    cycleStartTime m = wrap32 started ->
    0 <= at_tick - started < 4294967296 ->
    (at_tick - started < durationMs ph ->
     Firmware.processAutonomousCycle (wrap32 at_tick) m = Returned m)
    /\ (durationMs ph <= at_tick - started ->
        exists m' rest,
          Firmware.processAutonomousCycle (wrap32 at_tick) m = Returned m'
          /\ cycleStartTime m' = wrap32 at_tick
          /\ Props.new_events m m'
             = Props.driver_events (ledGroup ph) (intensity ph) ++ rest).
Proof.
  intros m ph started at_tick Hst Hph Hstart Hrange.
  assert (Hel : wrap32 (wrap32 at_tick - cycleStartTime m)
                = at_tick - started)
    by (rewrite Hstart; now apply wrap32_difference).
  split.
  - intros Hwait. apply (tick_waits m _ ph Hst Hph). now rewrite Hel.
  - intros Hfire.
    rewrite (tick_fires_any m _ ph Hst Hph) by now rewrite Hel.
    destruct (advancePhase_trace (wrap32 at_tick)
                (Props.emits
                   (Props.driver_events (ledGroup ph) (intensity ph)) m))
      as (rest & Htr & _).
    rewrite emits_trace in Htr.
    eexists. exists rest. split; [reflexivity|].
    split; [apply advancePhase_start|].
    apply new_events_app. rewrite Htr. now rewrite app_assoc.
Qed.

(** The roll-over property on a phase of 50 ms started 6 ms before the
    counter wraps and ticked 60 ms later. *)
Lemma tick_timing_survives_rollover_witness :
  exists m' rest,
    Firmware.processAutonomousCycle 54 More.near_rollover = Returned m'
    /\ cycleStartTime m' = 54
    /\ Props.new_events More.near_rollover m'
       = Props.driver_events 0 255 ++ rest.
Proof.
  destruct (tick_timing_survives_rollover More.near_rollover
              (mkPhase 0 50 255) 4294967290 4294967350)
    as [_ Hfire]; try reflexivity; try lia.
  destruct Hfire as (m' & rest & Hrun & Hstart & Hev); [cbn; lia|].
  exists m', rest. split; [exact Hrun|]. split; [exact Hstart | exact Hev].
Defined.

(** X2: a pattern that declares no phase (or one) is run as a one-phase
    pattern on slot 0: while the index is 0, every tick that fires applies
    slot 0, leaves the index at 0 and counts and reports one more
    completed cycle. *)
Theorem phaseless_pattern_runs_slot_zero :
  forall (m : Machine) (now : Z) (ph : AttackPhase),
    currentState m = STATE_CYCLING ->
    phaseCount (currentPattern m) <= 1 ->
    currentPhaseIndex m = 0 ->
    Firmware.phaseAt m = Some ph ->
    durationMs ph <= wrap32 (now - cycleStartTime m) ->
    exists m',
      Firmware.processAutonomousCycle now m = Returned m'
      /\ Props.new_events m m'
         = Props.driver_events (ledGroup ph) (intensity ph)
           ++ Props.cycle_complete (wrap32 (globalCycleCount m + 1))
      /\ currentPhaseIndex m' = 0
      /\ globalCycleCount m' = wrap32 (globalCycleCount m + 1)
      /\ currentPattern m' = currentPattern m
      /\ currentState m' = STATE_CYCLING.
Proof.
  intros m now ph Hst Hpc Hidx Hph Hfire.
  rewrite (tick_fires_any m now ph Hst Hph Hfire).
  eexists. split; [reflexivity|].
  rewrite advancePhase_eq, !emits_eq.
  cbn [currentPattern currentPhaseIndex globalCycleCount].
  rewrite Hidx. change (wrap8 (0 + 1)) with 1.
  replace (phaseCount (currentPattern m) <=? 1) with true
    by (symmetry; now apply Z.leb_le).
  cbn. repeat split; try assumption.
  apply new_events_app. cbn. now rewrite <- app_assoc.
Qed.

(** The phaseless property on the record of an erased store, whose slot 0
    has duration 0: the tick at time 0 already fires. *)
Lemma phaseless_pattern_runs_slot_zero_witness :
  exists m',
    Firmware.processAutonomousCycle 0 More.blank_cycling = Returned m'
    /\ currentPhaseIndex m' = 0
    /\ globalCycleCount m' = 1.
Proof.
  destruct (phaseless_pattern_runs_slot_zero More.blank_cycling 0 zeroPhase)
    as (m' & Hrun & _ & Hidx & Hcnt & _);
    try reflexivity; try (cbn; lia).
  exists m'. split; [exact Hrun|]. split; [exact Hidx | exact Hcnt].
Defined.

(** ** Further properties of the output driver *)

Section DriverMore.

Import WString Firmware Props More.

Lemma flickerRound_pins (intensity i : Z) (m : Machine) :
  pins (flickerRound intensity i m)
  = mkOutputs (level ((i mod 2) * intensity))
      (level (((i + 1) mod 2) * intensity))
      (level (((i + 2) mod 2) * intensity))
      (level (((i + 3) mod 2) * intensity))
      (relay (pins m)) (statusLed (pins m)).
Proof. reflexivity. Qed.

(** The rounds of the burst, seen from the last one. *)
Lemma flickerFrom_last (k : nat) :
  forall (i intensity : Z) (m : Machine),
    flickerFrom (S k) i intensity m
    = flickerRound intensity (i + Z.of_nat k) (flickerFrom k i intensity m).
Proof.
  induction k as [|k IH]; intros i intensity m.
  - cbn [flickerFrom Z.of_nat]. now rewrite Z.add_0_r.
  - change (flickerFrom (S (S k)) i intensity m)
      with (flickerFrom (S k) (i + 1) intensity (flickerRound intensity i m)).
    rewrite IH. cbn [flickerFrom].
    replace (i + 1 + Z.of_nat k) with (i + Z.of_nat (S k)) by lia.
    reflexivity.
Qed.

Lemma flickerFrom_frame (rounds : nat) (i intensity : Z) (m : Machine) :
  relay (pins (flickerFrom rounds i intensity m)) = relay (pins m)
  /\ statusLed (pins (flickerFrom rounds i intensity m)) = statusLed (pins m).
Proof.
  rewrite flickerFrom_emits, emits_eq. cbn [pins].
  apply apply_channel_events, flicker_events_channels.
Qed.

Lemma flickerAll_pins (intensity : Z) (m : Machine) :
  pins (flickerAll intensity m)
  = mkOutputs (level intensity) (Digital false) (level intensity)
      (Digital false) (relay (pins m)) (statusLed (pins m)).
Proof.
  unfold flickerAll. rewrite (flickerFrom_last 49 0 intensity m).
  rewrite flickerRound_pins.
  destruct (flickerFrom_frame 49 0 intensity m) as [-> ->].
  change ((0 + Z.of_nat 49) mod 2) with 1.
  change ((0 + Z.of_nat 49 + 1) mod 2) with 0.
  change ((0 + Z.of_nat 49 + 2) mod 2) with 1.
  change ((0 + Z.of_nat 49 + 3) mod 2) with 0.
  now rewrite Z.mul_1_l, Z.mul_0_l.
Qed.

Lemma flicker_events_length (rounds : nat) :
  forall i intensity,
    List.length (flicker_events rounds i intensity) = (4 * rounds)%nat.
Proof.
  induction rounds as [|k IH]; intros i intensity; [reflexivity|].
  cbn [flicker_events]. rewrite length_app, IH. cbn [List.length]. lia.
Qed.

Lemma setLEDGroup_pins (group intensity : Z) (m : Machine) :
  pins (setLEDGroup group intensity m) = after_group group intensity (pins m).
Proof.
  unfold setLEDGroup, andThen.
  destruct group as [|p|p]; try reflexivity.
  do 3 (destruct p as [p|p|]; try reflexivity).
  rewrite flickerAll_pins. reflexivity.
Qed.

End DriverMore.

(** X3: what [setLEDGroup] leaves on the pins.  The relay ends HIGH for
    every group.  Groups 0 to 3 set their own channel to the PWM duty and
    leave the other three as they were; group 4 sets all four to the duty;
    group 5, after its 200 writes, leaves the first and third channel
    HIGH (LOW when the intensity is 0) and the second and fourth LOW,
    whatever the intensity; any other group leaves the channels alone.
    The status LED and every global are untouched. *)
Theorem setLEDGroup_outputs :
  forall (group intensity : Z) (m : Machine),
    pins (Firmware.setLEDGroup group intensity m)
    = More.after_group group intensity (pins m)
    /\ More.globals (Firmware.setLEDGroup group intensity m) = More.globals m
    /\ (group = 5 ->
        List.length
          (Props.new_events m (Firmware.setLEDGroup group intensity m))
        = 201%nat).
Proof.
  intros group intensity m. split; [| split].
  - apply setLEDGroup_pins.
  - rewrite setLEDGroup_emits, emits_eq. reflexivity.
  - intros ->. rewrite setLEDGroup_emits, new_events_emits.
    unfold Props.driver_events, Props.channel_events.
    cbn [List.length]. now rewrite flicker_events_length.
Qed.

(** The driver property on a flicker burst at intensity 200 from boot. *)
Lemma setLEDGroup_outputs_witness :
  List.length
    (Props.new_events Firmware.boot (Firmware.setLEDGroup 5 200 Firmware.boot))
  = 201%nat.
Proof.
  destruct (setLEDGroup_outputs 5 200 Firmware.boot) as (_ & _ & Hlen).
  apply Hlen. reflexivity.
Defined.

(** ** Further properties of the command handler *)

Section CommandMore.

Import WString Firmware Props More.

Lemma apply_events_app (xs ys : list Event) (o : Outputs) :
  apply_events (xs ++ ys) o = apply_events ys (apply_events xs o).
Proof. unfold apply_events. now rewrite fold_left_app. Qed.

End CommandMore.

(** X4: what a command can and cannot change.  No command that returns
    changes the completed-cycle count, the interlock sample or the
    emergency latch.  The current pattern changes only on a LOAD_PATTERN
    line, the phase index and the phase clock only on START_CYCLE, the
    state only on ARM, DISARM, START_CYCLE and STOP_CYCLE, and the pins
    only on DISARM, ALL_OFF and SET_GROUP lines.  The one command that
    does not return is EMERGENCY. *)
Theorem commands_change_only_their_own_state :
  forall (now : Z) (cmd : string) (m : Machine),
    match Firmware.processCommand now cmd m with
    | Returned m' =>
        globalCycleCount m' = globalCycleCount m
        /\ safetyEngaged m' = safetyEngaged m
        /\ emergencyTriggered m' = emergencyTriggered m
        /\ (currentPattern m' <> currentPattern m ->
            WString.startsWith cmd "LOAD_PATTERN:" = true)
        /\ (currentPhaseIndex m' <> currentPhaseIndex m
            \/ cycleStartTime m' <> cycleStartTime m ->
            cmd = "START_CYCLE")
        /\ (currentState m' <> currentState m ->
            cmd = "ARM" \/ cmd = "DISARM" \/ cmd = "START_CYCLE"
            \/ cmd = "STOP_CYCLE")
        /\ (pins m' <> pins m ->
            cmd = "DISARM" \/ cmd = "ALL_OFF"
            \/ WString.startsWith cmd "SET_GROUP:" = true)
    | Halted _ => cmd = "EMERGENCY"
    | Undefined => False
    end.
Proof.
  intros now cmd m.
  apply processCommand_cases; intros;
    try assumption;
    rewrite ?emits_eq;
    cbn [globalCycleCount safetyEngaged emergencyTriggered currentPattern
         currentPhaseIndex cycleStartTime currentState pins
         set_currentState set_currentPhaseIndex set_cycleStartTime
         set_currentPattern];
    (split; [reflexivity|]); (split; [reflexivity|]);
    (split; [reflexivity|]);
    (split; [intros Hne; try assumption; exfalso; apply Hne; reflexivity|]);
    (split; [intros [Hne | Hne]; try assumption;
             exfalso; apply Hne; reflexivity|]);
    (split; [intros Hne; try tauto; exfalso; apply Hne; reflexivity|]);
    intros Hne; try tauto; exfalso; apply Hne; reflexivity.
Qed.

(** X5: no command changes a global silently.  A command that returns
    with the state, the pattern, the cursor or a flag changed has printed
    a line, and that line is the last thing it did; a command that does
    not return has printed EMERGENCY_STOPPED and lit the status LED. *)
Theorem state_changes_are_acknowledged :
  forall (now : Z) (cmd : string) (m : Machine),
    match Firmware.processCommand now cmd m with
    | Returned m' =>
        More.globals m' <> More.globals m ->
        exists evs tok,
          Props.new_events m m' = evs ++ [EvPrintln (Txt tok)]
    | Halted m' =>
        exists evs,
          Props.new_events m m'
          = evs ++ [ EvPrintln (Txt "EMERGENCY_STOPPED");
                     EvDigitalWrite STATUS_LED_PIN true ]
    | Undefined => False
    end.
Proof.
  intros now cmd m.
  apply processCommand_cases; intros;
    try (match goal with
         | Hne : More.globals _ <> More.globals _ |- _ =>
             exfalso; apply Hne; reflexivity
         end);
    try (match goal with
         | Hne : More.globals _ <> More.globals _ |- _ =>
             exfalso; apply Hne; unfold More.globals, Props.cursor;
             rewrite emits_eq; reflexivity
         end).
  - exists [], "ACK_ARMED". apply new_events_app; rewrite emits_trace; reflexivity.
  - exists Props.all_off_events, "ACK_DISARMED". apply new_events_app; rewrite emits_trace; reflexivity.
  - exists [], "CYCLE_STARTED". apply new_events_app; rewrite emits_trace; reflexivity.
  - exists [], "CYCLE_STOPPED". apply new_events_app; rewrite emits_trace; reflexivity.
  - exists [EvPrint (Txt "PATTERN_LOADED:")], (name p).
    apply new_events_app; rewrite emits_trace; reflexivity.
  - exists Props.all_off_events. apply new_events_app.
    rewrite emits_trace. reflexivity.
Qed.

(** ** Invariants of the running device *)

Section RunInvariants.

Import WString Firmware Props More.

Lemma processCommand_run_inv (now : Z) (cmd : string) (m : Machine) :
  currentState m <> STATE_EMERGENCY ->
  match processCommand now cmd m with
  | Returned m' =>
      currentState m' <> STATE_EMERGENCY
      /\ safetyEngaged m' = safetyEngaged m
  | Halted m' => run_inv (Halted m')
  | Undefined => False
  end.
Proof.
  intros Hst.
  apply processCommand_cases; intros; rewrite ?emits_eq;
    try (split; [assumption | reflexivity]);
    try (split; [discriminate | reflexivity]).
  cbn. repeat split.
Qed.

Lemma tick_keeps_sample (now : Z) (m : Machine) :
  match processAutonomousCycle now m with
  | Returned m' =>
      currentState m' = currentState m
      /\ safetyEngaged m' = safetyEngaged m
  | Halted _ => False
  | Undefined => True
  end.
Proof.
  apply processAutonomousCycle_cases; intros; try (split; reflexivity).
  rewrite advancePhase_eq, !emits_eq.
  cbn [currentPattern currentPhaseIndex globalCycleCount].
  destruct (phaseCount (currentPattern m) <=? wrap8 (currentPhaseIndex m + 1));
    split; reflexivity.
Qed.

Lemma loop_run_inv (inp : Inputs) (m : Machine) :
  run_inv (Returned m) -> run_inv (loop inp m).
Proof.
  intros [Hst Hsample]. unfold loop.
  set (m0 := set_safetyEngaged (safetyPinLow inp) m).
  destruct (emergencyTriggered m0 || negb (safetyEngaged m0)) eqn:Etrip.
  { destruct (state_eqb (currentState m0) STATE_IDLE) eqn:Eidle;
      cbn [negb].
    - apply state_eqb_idle in Eidle.
      change (currentState m0) with (currentState m) in Eidle.
      cbn. split; [exact Hst | intros Hne; contradiction].
    - rewrite emergencyHandler_eq. cbn. repeat split. }
  apply orb_false_elim in Etrip as [_ Eopen].
  apply negb_false_iff in Eopen.
  assert (Hkeep : forall m1,
             currentState m1 <> STATE_EMERGENCY ->
             safetyEngaged m1 = true ->
             run_inv (processAutonomousCycle (millisTick inp) m1)).
  { intros m1 Hst1 Hs1.
    pose proof (tick_keeps_sample (millisTick inp) m1) as Ht.
    destruct (processAutonomousCycle (millisTick inp) m1) as [m2 | m2 |];
      [| destruct Ht | exact I].
    destruct Ht as [Hst2 Hs2]. cbn. rewrite Hst2, Hs2. now split. }
  unfold processSerialCommand.
  destruct (serialLine inp) as [line|]; cbn [bind].
  - pose proof (processCommand_run_inv (millisCmd inp) (trim line) m0 Hst)
      as Hc.
    destruct (processCommand (millisCmd inp) (trim line) m0)
      as [m1 | m1 |]; cbn [bind].
    + destruct Hc as [Hst1 Hs1]. apply Hkeep; [exact Hst1|].
      now rewrite Hs1.
    + exact Hc.
    + destruct Hc.
  - now apply Hkeep.
Qed.

Lemma step_run_inv (o : Outcome) (e : SysEvent) :
  run_inv o -> run_inv (sys_step o e).
Proof.
  destruct o as [m | m |], e as [inp|]; cbn [sys_step].
  - apply loop_run_inv.
  - cbn. tauto.
  - tauto.
  - cbn. tauto.
  - tauto.
  - tauto.
Qed.

Lemma run_run_inv (evs : list SysEvent) :
  forall o, run_inv o -> run_inv (run evs o).
Proof.
  induction evs as [|e evs IH]; intros o Ho; [exact Ho|].
  cbn [run fold_left]. apply IH, step_run_inv, Ho.
Qed.

Lemma setup_run_inv (stored : AttackPattern) :
  run_inv (Returned (setup stored boot)).
Proof. cbn. split; [discriminate | intros Hne; now contradiction Hne]. Qed.


End RunInvariants.


(** ** The relay and the channels *)

Section Powered.

Import WString Firmware Props More.

Lemma safe_along_app (xs ys : list Event) :
  forall o,
    safe_along o (xs ++ ys)
    = safe_along o xs && safe_along (apply_events xs o) ys.
Proof.
  induction xs as [|e xs IH]; intros o; [reflexivity|].
  cbn [app safe_along]. rewrite IH, andb_assoc. reflexivity.
Qed.

(** After a safe sequence from safe outputs, the outputs are safe. *)
Lemma safe_along_end (evs : list Event) :
  forall o,
    pin_safe o = true -> safe_along o evs = true ->
    pin_safe (apply_events evs o) = true.
Proof.
  induction evs as [|e evs IH]; intros o Ho Hevs; [exact Ho|].
  cbn [safe_along] in Hevs. apply andb_prop in Hevs as [He Hrest].
  exact (IH (apply_event e o) He Hrest).
Qed.

Lemma safe_prints (evs : list Event) (o : Outputs) :
  forallb is_quiet evs = true ->
  pin_safe o = true ->
  safe_along o evs = true.
Proof.
  revert o. induction evs as [|e evs IH]; intros o Hall Ho; [reflexivity|].
  cbn [forallb] in Hall. apply andb_prop in Hall as [He Hrest].
  assert (Hkeep : pin_safe (apply_event e o) = true).
  { destruct e as [p h | p d | x | x]; try exact Ho;
      destruct p; try discriminate; destruct o; exact Ho. }
  cbn [safe_along]. rewrite Hkeep. now apply IH.
Qed.

(** With the relay on, channel writes are safe. *)
Lemma safe_channel_writes (evs : list Event) :
  forall o,
    forallb is_channel_write evs = true ->
    relay_on o = true ->
    safe_along o evs = true.
Proof.
  induction evs as [|e evs IH]; intros o Hall Ho; [reflexivity|].
  cbn [forallb] in Hall. apply andb_prop in Hall as [He Hrest].
  assert (Hon : relay_on (apply_event e o) = true).
  { destruct e as [p h | p d | x | x]; try discriminate;
      destruct p; try discriminate; exact Ho. }
  cbn [safe_along]. unfold pin_safe at 1. rewrite Hon. cbn [orb andb].
  now apply IH.
Qed.

Lemma safe_driver (g i : Z) (o : Outputs) :
  safe_along o (driver_events g i) = true.
Proof.
  unfold driver_events. cbn [safe_along].
  assert (Hon : relay_on (apply_event (EvDigitalWrite RELAY_PIN true) o) = true)
    by reflexivity.
  unfold pin_safe at 1. rewrite Hon. cbn [orb andb].
  apply safe_channel_writes; [apply channel_events_channels | exact Hon].
Qed.

Lemma safe_all_off (o : Outputs) :
  pin_safe o = true -> safe_along o all_off_events = true.
Proof.
  destruct o as [h ho p s r st]. unfold pin_safe, relay_on, channels_off.
  cbn [relay hat hoodie pants shoes].
  intros Ho. cbn.
  destruct r as [[|] | d]; cbn in Ho |- *; [reflexivity | |];
    apply andb_prop in Ho as [Ho Hs]; apply andb_prop in Ho as [Ho Hp];
    apply andb_prop in Ho as [Hh Hho];
    unfold channels_off; cbn; rewrite ?Hh, ?Hho, ?Hp, ?Hs; reflexivity.
Qed.

Lemma powered_safe (m : Machine) : powered m -> pin_safe (pins m) = true.
Proof.
  intros [Hpins Hsafe]. rewrite Hpins.
  now apply safe_along_end.
Qed.

Lemma powered_frame (m m' : Machine) :
  pins m' = pins m -> trace m' = trace m -> powered m -> powered m'.
Proof. unfold powered. now intros -> ->. Qed.

Lemma powered_emits (evs : list Event) (m m' : Machine) :
  pins m' = pins m -> trace m' = trace m ->
  powered m ->
  safe_along (pins m) evs = true ->
  powered (emits evs m').
Proof.
  intros Hp Ht [Hpins Hsafe] Hevs. unfold powered.
  rewrite emits_eq. cbn [pins trace]. rewrite Hp, Ht. split.
  - now rewrite apply_events_app, <- Hpins.
  - now rewrite safe_along_app, Hsafe, <- Hpins.
Qed.

Lemma powered_command (now : Z) (cmd : string) (m : Machine) :
  powered m -> powered_inv (processCommand now cmd m).
Proof.
  intros Hm. pose proof (powered_safe m Hm) as Hsafe.
  apply processCommand_cases; intros; cbn [powered_inv]; try exact Hm;
    try (apply (powered_emits _ m); try reflexivity; try exact Hm;
         apply safe_prints; [reflexivity | exact Hsafe]).
  - apply (powered_emits _ m); try reflexivity; try exact Hm.
    rewrite safe_along_app, (safe_all_off _ Hsafe). cbn [andb].
    apply safe_prints; [reflexivity|].
    apply safe_along_end; [exact Hsafe | now apply safe_all_off].
  - apply (powered_emits _ m); try reflexivity; try exact Hm.
    rewrite safe_along_app.
    assert (Hevs : safe_along (pins m) evs = true).
    { destruct H0 as [-> | (g & i & ->)]; [reflexivity | apply safe_driver]. }
    rewrite Hevs. cbn [andb].
    apply safe_prints; [reflexivity|]. now apply safe_along_end.
  - apply (powered_emits _ m); try reflexivity; try exact Hm.
    unfold emergency_events.
    rewrite safe_along_app, (safe_all_off _ Hsafe). cbn [andb].
    apply safe_prints; [reflexivity|].
    apply safe_along_end; [exact Hsafe | now apply safe_all_off].
  - apply (powered_emits _ m); try reflexivity; try exact Hm.
    now apply safe_all_off.
Qed.

Lemma powered_tick (now : Z) (m : Machine) :
  powered m -> powered_inv (processAutonomousCycle now m).
Proof.
  intros Hm.
  apply processAutonomousCycle_cases; intros; cbn [powered_inv];
    try exact Hm; try exact I.
  assert (Hd : powered (emits (driver_events (ledGroup ph) (intensity ph)) m))
    by (apply (powered_emits _ m); try reflexivity; try exact Hm;
        apply safe_driver).
  rewrite advancePhase_eq.
  set (m1 := emits (driver_events (ledGroup ph) (intensity ph)) m) in *.
  destruct (phaseCount (currentPattern m1) <=? wrap8 (currentPhaseIndex m1 + 1)).
  - apply (powered_emits _ m1); try reflexivity; try exact Hd.
    apply safe_prints; [reflexivity | now apply powered_safe].
  - exact (powered_frame m1 _ eq_refl eq_refl Hd).
Qed.

Lemma powered_loop (inp : Inputs) (m : Machine) :
  powered m -> powered_inv (loop inp m).
Proof.
  intros Hm. unfold loop.
  set (m0 := set_safetyEngaged (safetyPinLow inp) m).
  assert (Hm0 : powered m0) by exact (powered_frame m m0 eq_refl eq_refl Hm).
  destruct (emergencyTriggered m0 || negb (safetyEngaged m0)).
  { destruct (negb (state_eqb (currentState m0) STATE_IDLE)); [|exact Hm0].
    pose proof (powered_command 0 "EMERGENCY" m0 Hm0) as He.
    exact He. }
  unfold processSerialCommand.
  destruct (serialLine inp) as [line|]; cbn [bind];
    [| now apply powered_tick].
  pose proof (powered_command (millisCmd inp) (trim line) m0 Hm0) as Hc.
  destruct (processCommand (millisCmd inp) (trim line) m0) as [m1 | m1 |];
    cbn [bind]; [now apply powered_tick | exact Hc | exact I].
Qed.

Lemma powered_run (evs : list SysEvent) :
  forall o, powered_inv o -> powered_inv (run evs o).
Proof.
  induction evs as [|e evs IH]; intros o Ho; [exact Ho|].
  cbn [run fold_left]. apply IH.
  destruct o as [m | m |], e as [inp|]; cbn [sys_step]; try exact Ho.
  now apply powered_loop.
Qed.

End Powered.

(** X7: no channel is ever driven while the relay is released.  After any
    sequence of loop passes and interrupts from [setup], with any stored
    pattern, the pins are what the pin writes of the trace make of the
    pins at boot, and after every single write of that trace the relay
    was HIGH or the four channels were off: [setLEDGroup] raises the relay
    before it touches a channel and [allLEDsOff] releases it after the
    last channel is low. *)
Theorem channels_driven_only_with_relay_on :
  forall (stored : AttackPattern) (evs : list Firmware.SysEvent),
    More.powered_inv
      (Firmware.run evs (Returned (Firmware.setup stored Firmware.boot))).
Proof.
  intros stored evs. apply powered_run. cbn [More.powered_inv].
  split; reflexivity.
Qed.

(** ** The status report *)

Section StatusMore.

Import WString Firmware Props More.

Lemma processCommand_status (now : Z) (m : Machine) :
  processCommand now "GET_STATUS" m = Returned (emits (status_events m) m).
Proof.
  apply processCommand_cases; try reflexivity;
    try (intros; discriminate);
    try (intros; match goal with
                 | H : _ = true |- _ => vm_compute in H; discriminate H
                 end).
  intros (_ & _ & _ & _ & _ & _ & _ & H & _). vm_compute in H.
  discriminate H.
Qed.

Lemma bind_returned (m : Machine) (f : Machine -> Outcome) :
  bind (Returned m) f = f m.
Proof. reflexivity. Qed.

Lemma status_pass (inp : Inputs) (line : string) (m m' : Machine) :
  serialLine inp = Some line ->
  trim line = "GET_STATUS" ->
  loop inp m = Returned m' ->
  new_events m m' = []
  \/ (emergencyTriggered m = false
      /\ exists rest,
           new_events m m'
           = status_events (set_safetyEngaged true m) ++ rest).
Proof.
  intros Hline Htrim Hloop. unfold loop in Hloop.
  assert (Hquiet :
            (if negb (state_eqb
                        (currentState
                           (set_safetyEngaged (safetyPinLow inp) m))
                        STATE_IDLE)
             then emergencyHandler (set_safetyEngaged (safetyPinLow inp) m)
             else Returned (set_safetyEngaged (safetyPinLow inp) m))
            = Returned m' ->
            new_events m m' = []).
  { destruct (negb (state_eqb _ _)).
    - intros H. rewrite emergencyHandler_eq in H. discriminate H.
    - intros H. apply Returned_inj in H. subst m'.
      apply new_events_app. symmetry. apply app_nil_r. }
  change (emergencyTriggered (set_safetyEngaged (safetyPinLow inp) m))
    with (emergencyTriggered m) in Hloop.
  change (safetyEngaged (set_safetyEngaged (safetyPinLow inp) m))
    with (safetyPinLow inp) in Hloop.
  destruct (emergencyTriggered m) eqn:Eflag;
    [left; exact (Hquiet Hloop)|].
  destruct (safetyPinLow inp) eqn:Epin;
    [| left; exact (Hquiet Hloop)].
  clear Hquiet. right. split; [reflexivity|].
  cbn [orb negb] in Hloop.
  unfold processSerialCommand in Hloop.
  rewrite Hline, Htrim, processCommand_status, bind_returned in Hloop.
  set (m0 := set_safetyEngaged true m) in *.
  pose proof (processAutonomousCycle_relay (millisTick inp)
                (emits (status_events m0) m0)) as Ht.
  rewrite Hloop in Ht. destruct Ht as (rest & Htr & _).
  exists rest. apply new_events_app.
  rewrite Htr, emits_trace. unfold m0 at 1.
  change (trace (set_safetyEngaged true m)) with (trace m).
  symmetry. apply app_assoc.
Qed.
End StatusMore.

(** X8: a status report never shows an open interlock or the emergency
    state.  GET_STATUS is only processed in a pass that has just sampled
    the interlock closed with the latch clear, and such a pass never
    starts in Emergency: in every run from [setup], a pass with
    GET_STATUS pending that returns has either printed nothing at all
    (Idle with the interlock open or the latch set) or printed the report
    with state code 0, 1 or 2 and safety 1. *)
Theorem status_never_reports_open_interlock :
  forall (stored : AttackPattern) (evs : list Firmware.SysEvent)
         (inp : Firmware.Inputs) (line : string) (m m' : Machine),
    Firmware.run evs (Returned (Firmware.setup stored Firmware.boot))
    = Returned m ->
    Firmware.serialLine inp = Some line ->
    WString.trim line = "GET_STATUS" ->
    Firmware.loop inp m = Returned m' ->
    Props.new_events m m' = []
    \/ (exists rest,
          Props.new_events m m'
          = Props.status_events (set_safetyEngaged true m) ++ rest)
       /\ nth_error (Props.new_events m m') 1
          = Some (EvPrint (Num (state_code (currentState m))))
       /\ In (state_code (currentState m)) [0; 1; 2]
       /\ nth_error (Props.new_events m m') 3 = Some (EvPrint (Num 1)).
Proof.
  intros stored evs inp line m m' Hrun Hline Htrim Hloop.
  destruct (status_pass inp line m m' Hline Htrim Hloop)
    as [Hnone | (_ & rest & Hev)]; [now left | right].
  split; [now exists rest|]. rewrite Hev.
  split; [reflexivity|]. split; [|reflexivity].
  pose proof (run_run_inv evs _ (setup_run_inv stored)) as Hinv.
  rewrite Hrun in Hinv. destruct Hinv as [Hst _].
  destruct (currentState m); cbn; tauto.
Qed.

(** The status property on a device armed at 0 ms and queried at 5 ms. *)
Lemma status_never_reports_open_interlock_witness :
  exists m m',
    Firmware.loop (Firmware.mkInputs true (Some "GET_STATUS") 5 5) m
    = Returned m'
    /\ nth_error (Props.new_events m m') 1 = Some (EvPrint (Num 1))
    /\ nth_error (Props.new_events m m') 3 = Some (EvPrint (Num 1)).
Proof.
  pose (m := Scenarios.machine_of
               (Firmware.run [Scenarios.engaged (Some "ARM") 0]
                  (Returned
                     (Firmware.setup Scenarios.two_phase Firmware.boot)))).
  pose (m' := Scenarios.machine_of
                (Firmware.loop
                   (Firmware.mkInputs true (Some "GET_STATUS") 5 5) m)).
  exists m, m'.
  assert (Hloop : Firmware.loop
                    (Firmware.mkInputs true (Some "GET_STATUS") 5 5) m
                  = Returned m')
    by (vm_compute; reflexivity).
  split; [exact Hloop|].
  destruct (status_never_reports_open_interlock Scenarios.two_phase
              [Scenarios.engaged (Some "ARM") 0]
              (Firmware.mkInputs true (Some "GET_STATUS") 5 5)
              "GET_STATUS" m m')
    as [Hnone | (_ & Hcode & _ & Hsafety)];
    try (vm_compute; reflexivity).
  - vm_compute in Hnone. discriminate Hnone.
  - split; [exact Hcode | exact Hsafety].
Defined.

(** ** The payload of SET_GROUP *)

Section SetGroupMore.

Import WString Firmware Props More.

Lemma index_from (pat : string) :
  forall (s : string) (n k : nat),
    String.index n pat s = Some k -> (n <= k)%nat.
Proof.
  induction s as [|c s IH]; intros n k H; destruct n as [|n]; cbn in H.
  - destruct pat; [injection H as <-; lia | discriminate].
  - discriminate.
  - lia.
  - destruct (String.index n pat s) as [j|] eqn:E; [|discriminate].
    injection H as <-. apply IH in E. lia.
Qed.

Lemma get_in_range (s : string) :
  forall (p : nat) (c : ascii), String.get p s = Some c ->
                                (p < String.length s)%nat.
Proof.
  induction s as [|a s IH]; intros p c H; [destruct p; discriminate|].
  destruct p as [|p]; cbn [String.length]; [lia|].
  cbn in H. apply IH in H. lia.
Qed.

Lemma substring_head (s : string) :
  forall (a j : nat) (c : ascii),
    String.get a s = Some c ->
    String.substring a (S j) s = String c (String.substring (S a) j s).
Proof.
  induction s as [|b s IH]; intros a j c H; [destruct a; discriminate|].
  destruct a as [|a].
  - cbn in H. injection H as <-. cbn. destruct j; reflexivity.
  - cbn in H. cbn [String.substring]. rewrite (IH a j c H).
    reflexivity.
Qed.

Lemma substring_length (s : string) :
  forall a b : nat,
    (String.length (String.substring a b s) <= String.length s)%nat.
Proof.
  induction s as [|c s IH]; intros a b.
  - destruct a, b; cbn; lia.
  - destruct a as [|a].
    + destruct b as [|b]; cbn; [lia|]. specialize (IH 0%nat b). lia.
    + cbn [String.substring String.length]. specialize (IH a b). lia.
Qed.

Lemma len_substring (s : string) (l r : Z) : len (substring s l r) <= len s.
Proof.
  unfold substring, len.
  destruct (Z.of_nat (String.length s) <=? _); [cbn; lia|].
  apply inj_le, substring_length.
Qed.

Lemma wrap32_small (z : Z) : 0 <= z < 4294967296 -> wrap32 z = z.
Proof. intros H. unfold wrap32. now apply Z.mod_small. Qed.

(** A substring that starts on a colon reads as 0. *)
Lemma toInt_from_colon (s : string) (a r : Z) :
  len s < 4294967296 ->
  0 <= a -> a < wrap32 r ->
  String.get (Z.to_nat a) s = Some ":"%char ->
  toInt (substring s a r) = 0.
Proof.
  intros Hlen Ha Har Hget.
  pose proof (get_in_range s _ _ Hget) as Hin.
  unfold substring, len in *.
  rewrite (wrap32_small a) by lia.
  replace (wrap32 r <? a) with false by (symmetry; apply Z.ltb_ge; lia).
  replace (Z.of_nat (String.length s) <=? a) with false
    by (symmetry; apply Z.leb_gt; lia).
  set (r' := if Z.of_nat (String.length s) <? wrap32 r
             then Z.of_nat (String.length s) else wrap32 r).
  assert (Hr' : a < r')
    by (unfold r'; destruct (Z.of_nat (String.length s) <? wrap32 r); lia).
  destruct (Z.to_nat (r' - a)) as [|j] eqn:Ej; [lia|].
  rewrite (substring_head s _ j _ Hget). reflexivity.
Qed.

Lemma key_intensity_chars (p : nat) :
  (p < 12)%nat -> String.get p key_intensity <> Some "}"%char.
Proof.
  intros Hp.
  do 12 (destruct p as [|p]; [cbn; discriminate|]). lia.
Qed.

(** The intensity of a SET_GROUP payload always reads as 0: the text
    handed to [toInt] starts on the colon that ends the key. *)
Lemma intensity_field_zero (json : string) :
  len json < 4294967285 ->
  0 < indexOf json key_intensity ->
  toInt (substring json (indexOf json key_intensity + 11)
           (indexOfChar json "}"%char (indexOf json key_intensity)))
  = 0.
Proof.
  intros Hlen. unfold indexOf.
  destruct (0 <? len json); [|lia].
  destruct (String.index 0 key_intensity json) as [n|] eqn:En; [|lia].
  intros _.
  pose proof (index_correct1 _ _ _ _ En) as Hsub.
  change (String.length key_intensity) with 12%nat in Hsub.
  assert (Hget : forall q, (q < 12)%nat ->
                   String.get (q + n) json = String.get q key_intensity).
  { intros q Hq. rewrite <- Hsub. symmetry.
    now apply substring_correct1. }
  assert (Hcolon : String.get (11 + n) json = Some ":"%char)
    by (rewrite Hget by lia; reflexivity).
  pose proof (get_in_range json _ _ Hcolon) as Hn.
  unfold len in Hlen.
  apply toInt_from_colon; try (unfold len; lia).
  - unfold indexOfChar, len.
    rewrite (wrap32_small (Z.of_nat n)) by lia.
    replace (Z.of_nat (String.length json) <=? Z.of_nat n) with false
      by (symmetry; apply Z.leb_gt; lia).
    rewrite Nat2Z.id.
    destruct (String.index n (String "}" EmptyString) json) as [k|] eqn:Ek;
      [|change (wrap32 (-1)) with 4294967295; lia].
    pose proof (index_from _ _ _ _ Ek) as Hnk.
    pose proof (index_correct1 _ _ _ _ Ek) as Hbrace.
    cbn [String.length] in Hbrace.
    assert (Hk : String.get k json = Some "}"%char).
    { replace k with (0 + k)%nat by lia.
      rewrite <- (substring_correct1 json k 1 0) by lia.
      now rewrite Hbrace. }
    pose proof (get_in_range json _ _ Hk) as Hkin.
    rewrite (wrap32_small (Z.of_nat k)) by lia.
    destruct (Nat.lt_ge_cases k (n + 12)) as [Hlt | Hge]; [|lia].
    exfalso. apply (key_intensity_chars (k - n)); [lia|].
    rewrite <- Hget by lia.
    replace (k - n + n)%nat with k by lia. exact Hk.
  - replace (Z.to_nat (Z.of_nat n + 11)) with (11 + n)%nat by lia.
    exact Hcolon.
Qed.

(** A SET_GROUP line is none of the commands tested before it. *)
Lemma set_line_not_others (cmd : string) :
  startsWith cmd "SET_GROUP:" = true ->
  equals cmd "ARM" = false /\ equals cmd "DISARM" = false
  /\ equals cmd "START_CYCLE" = false /\ equals cmd "STOP_CYCLE" = false
  /\ startsWith cmd "LOAD_PATTERN:" = false.
Proof.
  destruct cmd as [|c [|d r]]; try discriminate.
  { unfold startsWith. cbn [String.prefix].
    destruct (ascii_dec "S" c); discriminate. }
  unfold startsWith. cbn [String.prefix].
  destruct (ascii_dec "S" c) as [<- | _]; [|discriminate].
  destruct (ascii_dec "E" d) as [<- | _]; [|discriminate].
  intros _. repeat split.
Qed.

Lemma channel_kept_or_off (g : Z) (o : Outputs) :
  kept_or_off (hat o) (hat (after_group g 0 o))
  /\ kept_or_off (hoodie o) (hoodie (after_group g 0 o))
  /\ kept_or_off (pants o) (pants (after_group g 0 o))
  /\ kept_or_off (shoes o) (shoes (after_group g 0 o)).
Proof.
  unfold kept_or_off.
  destruct g as [|p|p]; cbn; try tauto.
  do 3 (destruct p as [p|p|]; cbn; try tauto).
Qed.

End SetGroupMore.

(** X9: SET_GROUP can never light a channel.  The intensity is read from
    the character before the number, the colon of the key, so it is 0 for
    every line: a SET_GROUP line either only prints GROUP_SET or calls
    [setLEDGroup] with intensity 0 before printing it.  Each channel is
    left as it was or switched off, and no global changes. *)
Theorem set_group_never_lights_a_channel :
  forall (now : Z) (cmd : string) (m : Machine),
    WString.startsWith cmd "SET_GROUP:" = true ->
    WString.len cmd < 4294967285 ->
    exists m',
      Firmware.processCommand now cmd m = Returned m'
      /\ (Props.new_events m m' = [EvPrintln (Txt "GROUP_SET")]
          \/ exists g,
               Props.new_events m m'
               = Props.driver_events g 0 ++ [EvPrintln (Txt "GROUP_SET")])
      /\ More.kept_or_off (hat (pins m)) (hat (pins m'))
      /\ More.kept_or_off (hoodie (pins m)) (hoodie (pins m'))
      /\ More.kept_or_off (pants (pins m)) (pants (pins m'))
      /\ More.kept_or_off (shoes (pins m)) (shoes (pins m'))
      /\ More.globals m' = More.globals m.
Proof.
  intros now cmd m Hset Hlen.
  destruct (set_line_not_others cmd Hset) as (H1 & H2 & H3 & H4 & H5).
  unfold Firmware.processCommand. rewrite H1, H2, H3, H4, H5, Hset.
  cbv zeta. unfold andThen.
  set (json := WString.substringFrom cmd (WString.indexOfChar cmd ":" 0 + 1)).
  assert (Hjson : WString.len json < 4294967285).
  { pose proof (len_substring cmd (WString.indexOfChar cmd ":" 0 + 1)
                  (WString.len cmd)) as Hle.
    fold (WString.substringFrom cmd (WString.indexOfChar cmd ":" 0 + 1))
      in Hle.
    fold json in Hle. lia. }
  destruct ((0 <? WString.indexOf json Firmware.key_group)
            && (0 <? WString.indexOf json Firmware.key_intensity))%bool
    eqn:Econd.
  - apply andb_prop in Econd as [_ Ei]. apply Z.ltb_lt in Ei.
    rewrite (intensity_field_zero json Hjson Ei).
    change (wrap8 0) with 0.
    eexists. split; [reflexivity|].
    split; [right; eexists; apply new_events_app; cbn [println emit trace];
            rewrite setLEDGroup_emits, emits_trace, <- app_assoc;
            reflexivity|].
    cbn [println emit pins apply_event]. rewrite setLEDGroup_pins.
    repeat split; try apply channel_kept_or_off.
    unfold More.globals, Props.cursor. cbn.
    rewrite setLEDGroup_emits, emits_eq. reflexivity.
  - eexists. split; [reflexivity|].
    split; [left; apply new_events_app; reflexivity|].
    repeat split; left; reflexivity.
Qed.

(** The SET_GROUP property on the line that asks for group 4 at 255. *)
Lemma set_group_never_lights_a_channel_witness :
  exists m',
    Firmware.processCommand 0 Scenarios.set_group_all_full
      Scenarios.cycling_lit = Returned m'
    /\ More.kept_or_off (hat (pins Scenarios.cycling_lit)) (hat (pins m')).
Proof.
  destruct (set_group_never_lights_a_channel 0 Scenarios.set_group_all_full
              Scenarios.cycling_lit)
    as (m' & Hrun & _ & Hhat & _);
    try (vm_compute; reflexivity).
  exists m'. split; [exact Hrun | exact Hhat].
Defined.

(** ** The payload of LOAD_PATTERN and loads in mid-cycle *)

Section LoadMore.

Import WString Firmware Props More.

(** [atol] gives 0 on a text that starts with no number. *)
Lemma toInt_no_number (c : ascii) (rest rest' : string) :
  no_number (String c rest') = true -> toInt (String c rest) = 0.
Proof.
  destruct c as [b0 b1 b2 b3 b4 b5 b6 b7].
  destruct b0, b1, b2, b3, b4, b5, b6, b7;
    intros H; try (vm_compute in H; discriminate H); reflexivity.
Qed.

Lemma substring_all (s : string) :
  String.substring 0 (String.length s) s = s.
Proof.
  induction s as [|c s IH]; [reflexivity|].
  cbn [String.length String.substring]. now rewrite IH.
Qed.

Lemma load_payload (payload : string) :
  len payload < 4294967283 ->
  substringFrom ("LOAD_PATTERN:" ++ payload) 13 = payload.
Proof.
  intros Hlen. destruct payload as [|c r]; [reflexivity|].
  unfold substringFrom, substring, len in *.
  cbn [String.append String.length] in *.
  rewrite !Nat2Z.inj_succ in *.
  set (n := Z.of_nat (String.length r)) in *.
  assert (Hn : 0 <= n) by (unfold n; lia).
  change (wrap32 13) with 13.
  rewrite wrap32_small by lia.
  replace (_ <? 13) with false by (symmetry; apply Z.ltb_ge; lia).
  replace (_ <=? 13) with false by (symmetry; apply Z.leb_gt; lia).
  rewrite Z.ltb_irrefl.
  match goal with
  | |- context [Z.to_nat (?x - 13)] =>
      replace (Z.to_nat (x - 13)) with (S (String.length r))
        by (unfold n; lia)
  end.
  change (Z.to_nat 13) with 13%nat. cbn [String.substring].
  now rewrite substring_all.
Qed.

Lemma load_line_starts (payload : string) :
  startsWith ("LOAD_PATTERN:" ++ payload) "LOAD_PATTERN:" = true.
Proof. destruct payload; reflexivity. Qed.

Lemma catalog_padding (p : AttackPattern) (i : Z) :
  In p PROVEN_PATTERNS ->
  phaseCount p <= i < 20 ->
  nth_error (phases p) (Z.to_nat i) = Some zeroPhase.
Proof.
  intros Hin Hi.
  assert (Hpad : 0 <= phaseCount p
                 /\ skipn (Z.to_nat (phaseCount p)) (phases p)
                    = repeat zeroPhase (20 - Z.to_nat (phaseCount p))).
  { destruct Hin as [<- | [<- | [<- | []]]]; split; cbn; try lia;
      reflexivity. }
  destruct Hpad as [Hpc Hpad].
  replace (Z.to_nat i)
    with (Z.to_nat (phaseCount p) + (Z.to_nat i - Z.to_nat (phaseCount p)))%nat
    by lia.
  rewrite <- nth_error_skipn, Hpad.
  apply nth_error_repeat. lia.
Qed.

End LoadMore.

(** X10: a LOAD_PATTERN line without a number loads the first catalog
    entry.  When the payload is empty or starts with a character that is
    neither white space, nor a sign, nor a digit, the index read is 0, so
    the line replaces the current pattern by AGC_Lock_5_Second and
    acknowledges the load. *)
Theorem load_without_number_selects_first_entry :
  forall (now : Z) (payload : string) (m : Machine),
    More.no_number payload = true ->
    WString.len payload < 4294967283 ->
    Props.load_index ("LOAD_PATTERN:" ++ payload) = 0
    /\ Firmware.processCommand now ("LOAD_PATTERN:" ++ payload) m
       = Returned
           (Props.emits [ EvPrint (Txt "PATTERN_LOADED:");
                          EvPrintln (Txt "AGC_Lock_5_Second") ]
              (set_currentPattern Scenarios.agc_lock m)).
Proof.
  intros now payload m Hno Hlen.
  assert (Hidx : Props.load_index ("LOAD_PATTERN:" ++ payload) = 0).
  { unfold Props.load_index. rewrite (load_payload payload Hlen).
    destruct payload as [|c r]; [reflexivity|].
    now rewrite (toInt_no_number c r r Hno). }
  split; [exact Hidx|].
  rewrite processCommand_load by apply load_line_starts.
  rewrite Hidx. reflexivity.
Qed.

(** The property on the payload abc. *)
Lemma load_without_number_selects_first_entry_witness :
  Props.load_index "LOAD_PATTERN:abc" = 0
  /\ Firmware.processCommand 0 "LOAD_PATTERN:abc" Firmware.boot
     = Returned
         (Props.emits [ EvPrint (Txt "PATTERN_LOADED:");
                        EvPrintln (Txt "AGC_Lock_5_Second") ]
            (set_currentPattern Scenarios.agc_lock Firmware.boot)).
Proof.
  apply (load_without_number_selects_first_entry 0 "abc" Firmware.boot).
  - reflexivity.
  - vm_compute. reflexivity.
Defined.

(** X11: loading a shorter pattern in mid-cycle counts a cycle that never
    ran.  When a LOAD_PATTERN line is accepted while Cycling and the phase
    index is at or beyond the new pattern's phase count, the index now
    points at a zero-filled slot of the copied array: the next tick fires
    whatever the time, calls [setLEDGroup(0, 0)], puts the index back to 0
    and counts and reports one more completed cycle. *)
Theorem load_of_shorter_pattern_counts_a_cycle :
  forall (now now' : Z) (cmd : string) (m : Machine) (p : AttackPattern),
    currentState m = STATE_CYCLING ->
    WString.startsWith cmd "LOAD_PATTERN:" = true ->
    nth_error PROVEN_PATTERNS (Z.to_nat (Props.load_index cmd)) = Some p ->
    phaseCount p <= currentPhaseIndex m < 20 ->
    exists m1 m2,
      Firmware.processCommand now cmd m = Returned m1
      /\ Firmware.processAutonomousCycle now' m1 = Returned m2
      /\ Props.new_events m1 m2
         = Props.driver_events 0 0
           ++ Props.cycle_complete (wrap32 (globalCycleCount m + 1))
      /\ currentPhaseIndex m2 = 0
      /\ globalCycleCount m2 = wrap32 (globalCycleCount m + 1)
      /\ cycleStartTime m2 = now'
      /\ currentPattern m2 = p.
Proof.
  intros now now' cmd m p Hst Hload Hnth Hidx.
  assert (Hin : In p PROVEN_PATTERNS) by (eapply nth_error_In; eassumption).
  assert (Hlt : (Props.load_index cmd <? PATTERN_COUNT) = true).
  { apply Z.ltb_lt. pose proof (load_index_nonneg cmd).
    assert (Hsome : nth_error PROVEN_PATTERNS
                      (Z.to_nat (Props.load_index cmd)) <> None)
      by (rewrite Hnth; discriminate).
    apply nth_error_Some in Hsome. unfold PATTERN_COUNT. lia. }
  rewrite (processCommand_load now cmd m Hload), Hlt, Hnth.
  set (m1 := Props.emits [ EvPrint (Txt "PATTERN_LOADED:");
                           EvPrintln (Txt (name p)) ]
               (set_currentPattern p m)).
  assert (Hph : Firmware.phaseAt m1 = Some zeroPhase).
  { unfold Firmware.phaseAt, m1. rewrite emits_eq.
    cbn [currentPattern currentPhaseIndex set_currentPattern].
    now apply catalog_padding. }
  assert (Hst1 : currentState m1 = STATE_CYCLING)
    by (unfold m1; rewrite emits_eq; exact Hst).
  assert (Hp1 : currentPattern m1 = p)
    by (unfold m1; rewrite emits_eq; reflexivity).
  assert (Hi1 : currentPhaseIndex m1 = currentPhaseIndex m)
    by (unfold m1; rewrite emits_eq; reflexivity).
  assert (Hc1 : globalCycleCount m1 = globalCycleCount m)
    by (unfold m1; rewrite emits_eq; reflexivity).
  assert (Hfire : durationMs zeroPhase <= wrap32 (now' - cycleStartTime m1))
    by apply wrap32_nonneg.
  assert (Hpc : 0 < phaseCount p)
    by (destruct Hin as [<- | [<- | [<- | []]]]; cbn; lia).
  assert (Hw8 : wrap8 (currentPhaseIndex m + 1) = currentPhaseIndex m + 1)
    by (apply Z.mod_small; lia).
  assert (Hwrap : (phaseCount p <=? currentPhaseIndex m + 1) = true)
    by (apply Z.leb_le; lia).
  destruct (tick_fires m1 now' zeroPhase Hst1 Hph Hfire)
    as (m2 & Hrun & Htr & Hidx2 & Hcnt2 & Hstart2 & Hpat2 & _).
  rewrite Hp1, Hi1, Hw8, Hwrap in Htr, Hidx2, Hcnt2.
  rewrite Hc1 in Htr, Hcnt2. rewrite Hp1 in Hpat2.
  exists m1, m2. split; [reflexivity|]. split; [exact Hrun|].
  split; [exact (new_events_app m1 m2 _ Htr)|].
  split; [exact Hidx2|]. split; [exact Hcnt2|].
  split; [exact Hstart2 | exact Hpat2].
Qed.

(** The property on LOAD_PATTERN:1 sent while the two-phase pattern is at
    its second phase. *)
Lemma load_of_shorter_pattern_counts_a_cycle_witness :
  exists m1 m2,
    Firmware.processCommand 60 "LOAD_PATTERN:1" Scenarios.cycling_lit
    = Returned m1
    /\ Firmware.processAutonomousCycle 60 m1 = Returned m2
    /\ currentPhaseIndex m2 = 0
    /\ globalCycleCount m2 = 1.
Proof.
  assert (Hst : currentState Scenarios.cycling_lit = STATE_CYCLING)
    by (vm_compute; reflexivity).
  assert (Hload : WString.startsWith "LOAD_PATTERN:1" "LOAD_PATTERN:" = true)
    by (vm_compute; reflexivity).
  assert (Hnth : nth_error PROVEN_PATTERNS
                   (Z.to_nat (Props.load_index "LOAD_PATTERN:1"))
                 = Some Scenarios.saturation_blast)
    by (vm_compute; reflexivity).
  assert (Hrange : phaseCount Scenarios.saturation_blast
                   <= currentPhaseIndex Scenarios.cycling_lit < 20)
    by (vm_compute; split; [discriminate | reflexivity]).
  destruct (load_of_shorter_pattern_counts_a_cycle 60 60 "LOAD_PATTERN:1"
              Scenarios.cycling_lit Scenarios.saturation_blast
              Hst Hload Hnth Hrange)
    as (m1 & m2 & Hcmd & Htick & _ & Hidx & Hcnt & _).
  exists m1, m2. split; [exact Hcmd|]. split; [exact Htick|].
  split; [exact Hidx|]. rewrite Hcnt. vm_compute. reflexivity.
Defined.
